(** * Parallel WaveGAN training script: batch construction and training loop

    A shallow embedding of [parallel_wavegan/bin/train.py]:
    the [CustomCollater] class (length normalisation, random cropping of
    (audio, feature) pairs, zero padding, batch tensors) and the loop of
    [main] (generator update, gated discriminator update, pass counter).

    Python integers are [Z]; lengths of sequences are [nat] and are
    injected into [Z] wherever the source mixes them with configuration
    values.  Exceptions are values of [result].  The two random sources
    (numpy's for crop offsets, torch's for the noise tensor) are explicit
    streams threaded through the collater. *)

From Stdlib Require Import ZArith Lia.
From stdpp Require Import base list.

Local Open Scope Z_scope.

(** ** Python and numpy primitives *)

Module Py.

(** The exceptions the script can raise. *)
Inductive error :=
| AssertionError | ValueError | ZeroDivisionError | IndexError.

Inductive result (A : Type) :=
| Ok (a : A)
| Raise (e : error).
Global Arguments Ok {A} a.
Global Arguments Raise {A} e.

(** [a % b]: floored remainder, [ZeroDivisionError] on a zero divisor.
    [Z.modulo] has the sign of the divisor, like Python's [%]. *)
Definition mod_ (a b : Z) : result Z :=
  if b =? 0 then Raise ZeroDivisionError else Ok (a mod b).

(** [a // b]: floored quotient. *)
Definition floordiv (a b : Z) : result Z :=
  if b =? 0 then Raise ZeroDivisionError else Ok (a / b).

(** [assert b]. *)
Definition assert_ (b : bool) : result unit :=
  if b then Ok tt else Raise AssertionError.

(** A slice bound [i] of a sequence of length [n], as Python clamps it:
    a negative bound counts from the end. *)
Definition slice_index (n i : Z) : Z :=
  if i <? 0 then Z.max (i + n) 0 else Z.min i n.

(** [l[lo:hi]] on lists and on the first axis of numpy arrays. *)
Definition slice {A} (l : list A) (lo hi : Z) : list A :=
  let n := Z.of_nat (length l) in
  let a := slice_index n lo in
  let b := slice_index n hi in
  take (Z.to_nat (b - a)) (drop (Z.to_nat a) l).

(** [max(l)] on a list of lengths; [ValueError] on the empty list. *)
Definition max_ (l : list nat) : result nat :=
  match l with
  | [] => Raise ValueError
  | n :: l' => Ok (foldr Nat.max n l')
  end.

End Py.
Import Py.

(** Sequencing of computations that may raise. *)
Definition bind {A B} (r : result A) (k : A -> result B) : result B :=
  match r with
  | Ok a => k a
  | Raise e => Raise e
  end.

Notation "x <- r ;; k" := (bind r (fun x => k))
  (at level 100, r at next level, right associativity).

Section Model.

(** Audio samples and acoustic features are floating-point numbers whose
    arithmetic the collater never touches: it only moves them, pads with
    the constant [0] and converts to single precision. *)
Variable sample : Type.
Variable zero : sample.
Variable f32 : Type.
Variable to_f32 : sample -> f32.

(** A one-dimensional numpy array: the audio of one utterance. *)
Abbreviation audio := (list sample).

(** A two-dimensional numpy array of shape [(len, a_dim)]: the features
    of one utterance, one row per frame. *)
Record ndarray2 (A : Type) := {
  a_dim : nat;
  a_rows : list (list A)
}.
Arguments a_dim {A} _.
Arguments a_rows {A} _.

Abbreviation features := (ndarray2 sample).

(** [len(x)] as a Python integer. *)
Definition len {A} (l : list A) : Z := Z.of_nat (length l).
Definition len2 {A} (c : ndarray2 A) : Z := len (a_rows c).

(** [c[lo:hi]]: slicing the first axis keeps the second. *)
Definition slice2 {A} (c : ndarray2 A) (lo hi : Z) : ndarray2 A :=
  {| a_dim := a_dim c; a_rows := slice (a_rows c) lo hi |}.

(** *** Random sources *)

(** The state of the two generators: numpy's global generator yields
    raw integers, torch's yields standard-normal single-precision
    values. *)
Record rng := {
  np_random : nat -> Z;
  torch_random : nat -> f32
}.

(** Computations of the collater: they read and advance the generators
    and may raise. *)
Definition M (A : Type) : Type := rng -> result (A * rng).

Definition ret {A} (a : A) : M A := fun g => Ok (a, g).

Definition bindM {A B} (m : M A) (k : A -> M B) : M B :=
  fun g =>
    match m g with
    | Ok (a, g') => k a g'
    | Raise e => Raise e
    end.

Definition lift {A} (r : result A) : M A :=
  fun g =>
    match r with
    | Ok a => Ok (a, g)
    | Raise e => Raise e
    end.

Notation "x <~ m ;; k" := (bindM m (fun x => k))
  (at level 100, m at next level, right associativity).

(** [np.random.randint(low, high)]: an integer of [[low, high)], fixed
    by the generator state; [ValueError] when [low >= high].  numpy
    draws in its 64-bit integer type and raises [ValueError] as well for
    a bound outside it, which is not modelled: a draw is stated to
    return only for bounds between 0 and the number of frames of an
    array. *)
Definition randint (low high : Z) : M Z :=
  fun g =>
    if low <? high
    then Ok (low + np_random g 0%nat mod (high - low),
             {| np_random := fun n => np_random g (S n);
                torch_random := torch_random g |})
    else Raise ValueError.

(** *** [CustomCollater] *)

(** The attributes set by [__init__] (the device is not modelled). *)
Record CustomCollater := {
  batch_max_steps : Z;
  batch_max_frames : Z;
  hop_size : Z;
  aux_context_window : Z
}.

(** [CustomCollater.__init__]. *)
Definition __init__ (batch_max_steps0 hop_size0 aux_context_window0 : Z)
  : result CustomCollater :=
  r <- mod_ batch_max_steps0 hop_size0 ;;
  let batch_max_steps1 :=
    if negb (r =? 0) then batch_max_steps0 + - r else batch_max_steps0 in
  r' <- mod_ batch_max_steps1 hop_size0 ;;
  _ <- assert_ (r' =? 0) ;;
  q <- floordiv batch_max_steps1 hop_size0 ;;
  Ok {| batch_max_steps := batch_max_steps1;
        batch_max_frames := q;
        hop_size := hop_size0;
        aux_context_window := aux_context_window0 |}.

(** [CustomCollater._assert_ready_for_upsampling]. *)
Definition _assert_ready_for_upsampling
    (x : audio) (c : features) (hop_size0 context_window : Z) : result unit :=
  assert_ (len x =? (len2 c - 2 * context_window) * hop_size0).

(** The alignment relation the assertion checks. *)
Definition ready_for_upsampling
    (x : audio) (c : features) (hop_size0 context_window : Z) : Prop :=
  len x = (len2 c - 2 * context_window) * hop_size0.

Global Instance ready_for_upsampling_dec x c h w :
  Decision (ready_for_upsampling x c h w).
Proof. unfold ready_for_upsampling. apply _. Defined.

(** The body of the first loop of [__call__] (lines 56-66): the time
    resolution adjustment of one pair. *)
Definition adjust (self : CustomCollater) (b : audio * features)
  : M (audio * features) :=
  let '(x, c) := b in
  _ <~ lift (_assert_ready_for_upsampling x c (hop_size self) 0) ;;
  if len x >? batch_max_steps self then
    let interval_start := aux_context_window self in
    let interval_end :=
      len2 c - batch_max_frames self - aux_context_window self in
    start_frame <~ randint interval_start interval_end ;;
    let start_step := start_frame * hop_size self in
    let x' := slice x start_step (start_step + batch_max_steps self) in
    let c' := slice2 c (start_frame - aux_context_window self)
                (start_frame + aux_context_window self
                 + batch_max_frames self) in
    _ <~ lift (_assert_ready_for_upsampling x' c' (hop_size self)
                 (aux_context_window self)) ;;
    ret (x', c')
  else ret (x, c).

(** The first loop of [__call__] (lines 54-68). *)
Fixpoint adjust_batch (self : CustomCollater) (batch : list (audio * features))
  : M (list (audio * features)) :=
  match batch with
  | [] => ret []
  | b :: batch' =>
      b' <~ adjust self b ;;
      new_batch <~ adjust_batch self batch' ;;
      ret (b' :: new_batch)
  end.

(** [b[0].reshape(-1, 1)]: the audio as a column, shape [(len, 1)]. *)
Definition reshape_column (x : audio) : ndarray2 sample :=
  {| a_dim := 1; a_rows := map (fun v => [v]) x |}.

(** [CustomCollater._pad_2darray]: [np.pad] of the first axis with
    [b_pad] rows before and [max_len - len(x) - b_pad] rows after, all
    holding [constant_values]; numpy raises [ValueError] on a negative
    pad width.  numpy refuses as well a result larger than an array can
    be, which is not modelled: [__call__] pads to the length of an array
    of the batch. *)
Definition _pad_2darray (x : ndarray2 sample) (max_len : Z)
    (b_pad : Z) (constant_values : sample) : result (ndarray2 sample) :=
  let before := b_pad in
  let after := max_len - len2 x - b_pad in
  if (before <? 0) || (after <? 0) then Raise ValueError
  else
    let row := replicate (a_dim x) constant_values in
    Ok {| a_dim := a_dim x;
          a_rows := replicate (Z.to_nat before) row ++ a_rows x
                    ++ replicate (Z.to_nat after) row |}.

(** What the padding produces when there is room: the rows, then rows
    of zeros up to [max_len]. *)
Definition padded (max_len : nat) (x : ndarray2 sample) : ndarray2 sample :=
  {| a_dim := a_dim x;
     a_rows := a_rows x
               ++ replicate (max_len - length (a_rows x))
                    (replicate (a_dim x) zero) |}.

(** A three-dimensional tensor with its shape. *)
Record tensor3 (A : Type) := {
  t_shape : nat * nat * nat;
  t_data : list (list (list A))
}.
Arguments t_shape {A} _.
Arguments t_data {A} _.

(** The nested data has the extents the shape announces. *)
Definition well_shaped {A} (t : tensor3 A) : Prop :=
  let '(n0, n1, n2) := t_shape t in
  length (t_data t) = n0 /\
  Forall (fun m => length m = n1 /\ Forall (fun r => length r = n2) m)
         (t_data t).

Definition same_shape {A} (a b : ndarray2 A) : bool :=
  Nat.eqb (length (a_rows a)) (length (a_rows b))
  && Nat.eqb (a_dim a) (a_dim b).

(** [torch.FloatTensor(np.array(l, dtype=np.float32))] on a list of 2-D
    arrays: they are stacked along a new first axis and converted to
    single precision; arrays of different shapes do not stack
    ([ValueError]).  The empty list gives a 1-D array, on which the
    [transpose(2, 1)] that follows in the source raises [IndexError]. *)
Definition float_tensor (l : list (ndarray2 sample)) : result (tensor3 f32) :=
  match l with
  | [] => Raise IndexError
  | a :: l' =>
      if forallb (same_shape a) l'
      then Ok {| t_shape := (length l, length (a_rows a), a_dim a);
                 t_data := map (fun b => map (map to_f32) (a_rows b)) l |}
      else Raise ValueError
  end.

(** The transpose of a matrix with [m] columns, given by its rows. *)
Definition transpose_rows {A} (m : nat) (rows : list (list A))
  : list (list A) :=
  foldr (zip_with cons) (replicate m []) rows.

(** [t.transpose(2, 1)]. *)
Definition transpose21 {A} (t : tensor3 A) : tensor3 A :=
  let '(n0, n1, n2) := t_shape t in
  {| t_shape := (n0, n2, n1);
     t_data := map (transpose_rows n2) (t_data t) |}.

(** [torch.randn(size)]: a tensor of the given shape filled, in
    row-major order, with the next values of torch's generator. *)
Definition randn (size : nat * nat * nat) : M (tensor3 f32) :=
  fun g =>
    let '(n0, n1, n2) := size in
    let at_ (i j k : nat) := torch_random g (i * n1 * n2 + j * n2 + k)%nat in
    Ok ({| t_shape := size;
           t_data := map (fun i => map (fun j => map (at_ i j) (seq 0 n2))
                                       (seq 0 n1))
                         (seq 0 n0) |},
        {| np_random := np_random g;
           torch_random := fun n => torch_random g (n + n0 * n1 * n2)%nat |}).

(** A list comprehension whose body may raise. *)
Fixpoint comprehension {A B} (f : A -> result B) (l : list A)
  : result (list B) :=
  match l with
  | [] => Ok []
  | a :: l' =>
      b <- f a ;;
      bs <- comprehension f l' ;;
      Ok (b :: bs)
  end.

(** One collated batch: noise, conditioning features, target audio and
    the lengths of the audio before padding. *)
Record batch_tensors := {
  z_batch : tensor3 f32;
  c_batch : tensor3 f32;
  y_batch : tensor3 f32;
  input_lengths : list nat
}.

(** [CustomCollater.__call__]. *)
Definition __call__ (self : CustomCollater) (batch : list (audio * features))
  : M batch_tensors :=
  batch <~ adjust_batch self batch ;;
  let xlens := map (fun b => length (fst b)) batch in
  max_olen <~ lift (max_ xlens) ;;
  ys <~ lift (comprehension
                (fun b => _pad_2darray (reshape_column (fst b))
                            (Z.of_nat max_olen) 0 zero) batch) ;;
  y <~ lift (float_tensor ys) ;;
  let y := transpose21 y in
  let clens := map (fun b => length (a_rows (snd b))) batch in
  max_clen <~ lift (max_ clens) ;;
  cs <~ lift (comprehension
                (fun b => _pad_2darray (snd b) (Z.of_nat max_clen) 0 zero)
                batch) ;;
  c <~ lift (float_tensor cs) ;;
  let c := transpose21 c in
  z <~ randn (t_shape y) ;;
  ret {| z_batch := z; c_batch := c; y_batch := y; input_lengths := xlens |}.

(** *** The collaborators of [main] *)

(** The networks, the losses, the optimizers and the schedulers are
    library objects.  Each is represented by the state it owns and by
    the function each of its methods computes on that state. *)
Variables Theta_g Theta_d : Type.      (* network parameters *)
Variables Grad_g Grad_d : Type.        (* their [.grad] buffers *)
Variables RAdam_g RAdam_d : Type.      (* optimizer state *)
Variables StepLR_g StepLR_d : Type.    (* scheduler state *)
Variable scalar : Type.                (* configuration numbers *)

(** [backward()] of the generator loss
    [mse(D(G(z, c)), 1) + lambda_adv * stft(G(z, c), y)]: the graph runs
    through both networks, so the gradients accumulate in the buffers
    of both. *)
Variable loss_g_backward :
  scalar -> Theta_g -> Theta_d -> batch_tensors ->
  Grad_g * Grad_d -> Grad_g * Grad_d.

(** [model_g(z, c)]. *)
Variable model_g : Theta_g -> tensor3 f32 -> tensor3 f32 -> tensor3 f32.

(** [backward()] of the discriminator loss
    [mse(D(y), 1) + mse(D(y_.detach()), 0)]: the fake audio is detached,
    so only the discriminator's buffers receive gradients. *)
Variable loss_d_backward :
  Theta_d -> tensor3 f32 -> tensor3 f32 -> Grad_d -> Grad_d.

Variable zero_grad_g : Grad_g -> Grad_g.
Variable zero_grad_d : Grad_d -> Grad_d.
Variable clip_grad_norm_g : scalar -> Grad_g -> Grad_g.
Variable clip_grad_norm_d : scalar -> Grad_d -> Grad_d.
Variable optimizer_step_g : Theta_g -> Grad_g -> RAdam_g -> Theta_g * RAdam_g.
Variable optimizer_step_d : Theta_d -> Grad_d -> RAdam_d -> Theta_d * RAdam_d.

(** [StepLR.step()] also rewrites the learning rate held by its
    optimizer. *)
Variable schedular_step_g : StepLR_g -> RAdam_g -> StepLR_g * RAdam_g.
Variable schedular_step_d : StepLR_d -> RAdam_d -> StepLR_d * RAdam_d.

(** [v > 0] on a configuration number. *)
Variable positive : scalar -> bool.

(** The entries of [config] the loop reads. *)
Record config := {
  lambda_adv : scalar;
  grad_norm : scalar;
  discriminator_start_iter : Z;
  iters : Z
}.

(** The state-changing calls of one run, in the order they are made. *)
Inductive call :=
| G_zero_grad | G_backward | G_clip_grad_norm | G_step | G_schedular_step
| D_zero_grad | D_backward | D_clip_grad_norm | D_step | D_schedular_step.

Definition is_discriminator_call (e : call) : bool :=
  match e with
  | D_zero_grad | D_backward | D_clip_grad_norm | D_step
  | D_schedular_step => true
  | _ => false
  end.

Global Instance call_eq_dec : EqDecision call.
Proof. solve_decision. Defined.

(** How often a call occurs in a history. *)
Definition count_calls (e : call) (l : list call) : nat :=
  count_occ call_eq_dec l e.

(** The variables of [main] that the loop reads and writes; [calls] is
    the history of the state-changing calls, oldest first. *)
Record state := {
  theta_g : Theta_g;
  grad_g : Grad_g;
  optimizer_g : RAdam_g;
  schedular_g : StepLR_g;
  theta_d : Theta_d;
  grad_d : Grad_d;
  optimizer_d : RAdam_d;
  schedular_d : StepLR_d;
  global_steps : Z;
  calls : list call
}.

(** The calls of one generator update (lines 175-180) and of one
    discriminator update (lines 188-193); clipping is skipped unless
    [grad_norm > 0]. *)
Definition generator_calls (cfg : config) : list call :=
  [G_zero_grad; G_backward]
  ++ (if positive (grad_norm cfg) then [G_clip_grad_norm] else [])
  ++ [G_step; G_schedular_step].

Definition discriminator_calls (cfg : config) : list call :=
  [D_zero_grad; D_backward]
  ++ (if positive (grad_norm cfg) then [D_clip_grad_norm] else [])
  ++ [D_step; D_schedular_step].

(** Lines 169-180: the generator update; also returns [y_], the audio
    the generator produced before its update. *)
Definition generator_update (cfg : config) (st : state) (b : batch_tensors)
  : state * tensor3 f32 :=
  let y_ := model_g (theta_g st) (z_batch b) (c_batch b) in
  let gg := zero_grad_g (grad_g st) in
  let '(gg, gd) :=
    loss_g_backward (lambda_adv cfg) (theta_g st) (theta_d st) b
                    (gg, grad_d st) in
  let clip := positive (grad_norm cfg) in
  let gg := if clip then clip_grad_norm_g (grad_norm cfg) gg else gg in
  let '(th, opt) := optimizer_step_g (theta_g st) gg (optimizer_g st) in
  let '(sch, opt) := schedular_step_g (schedular_g st) opt in
  ({| theta_g := th; grad_g := gg; optimizer_g := opt; schedular_g := sch;
      theta_d := theta_d st; grad_d := gd;
      optimizer_d := optimizer_d st; schedular_d := schedular_d st;
      global_steps := global_steps st;
      calls := calls st ++ generator_calls cfg |},
   y_).

(** Lines 183-193: the discriminator update. *)
Definition discriminator_update (cfg : config) (st : state)
    (y y_ : tensor3 f32) : state :=
  let gd := zero_grad_d (grad_d st) in
  let gd := loss_d_backward (theta_d st) y y_ gd in
  let clip := positive (grad_norm cfg) in
  let gd := if clip then clip_grad_norm_d (grad_norm cfg) gd else gd in
  let '(th, opt) := optimizer_step_d (theta_d st) gd (optimizer_d st) in
  let '(sch, opt) := schedular_step_d (schedular_d st) opt in
  {| theta_g := theta_g st; grad_g := grad_g st;
     optimizer_g := optimizer_g st; schedular_g := schedular_g st;
     theta_d := th; grad_d := gd; optimizer_d := opt; schedular_d := sch;
     global_steps := global_steps st;
     calls := calls st ++ discriminator_calls cfg |}.

(** Lines 169-193: the body of the [for] loop, on one collated batch. *)
Definition train_step (cfg : config) (st : state) (b : batch_tensors)
  : state :=
  let '(st, y_) := generator_update cfg st b in
  if global_steps st >? discriminator_start_iter cfg
  then discriminator_update cfg st (y_batch b) y_
  else st.

(** How a run of the loop ends. *)
Inductive exit := Finished | Aborted (e : error).

(** Lines 168-193: one pass over the data loader.  The loader collates
    the next batch when the loop asks for it; an exception raised by
    the collater leaves the loop and ends the run. *)
Fixpoint train_pass (collate_fn : CustomCollater) (cfg : config)
    (batches : list (list (audio * features))) (st : state) (g : rng)
  : state * rng * exit :=
  match batches with
  | [] => (st, g, Finished)
  | batch :: batches' =>
      match __call__ collate_fn batch g with
      | Raise e => (st, g, Aborted e)
      | Ok (b, g') =>
          train_pass collate_fn cfg batches' (train_step cfg st b) g'
      end
  end.

(** [global_steps += 1]. *)
Definition increment (st : state) : state :=
  {| theta_g := theta_g st; grad_g := grad_g st;
     optimizer_g := optimizer_g st; schedular_g := schedular_g st;
     theta_d := theta_d st; grad_d := grad_d st;
     optimizer_d := optimizer_d st; schedular_d := schedular_d st;
     global_steps := global_steps st + 1;
     calls := calls st |}.

(** The shuffled training set: the batches the loader draws in the pass
    that starts with the given value of [global_steps]. *)
Variable data_loader : Z -> list (list (audio * features)).

(** Lines 167-197: [while True].  [fuel] bounds the number of passes;
    [None] means the bound was reached before the loop left. *)
Fixpoint train_loop (fuel : nat) (collate_fn : CustomCollater)
    (cfg : config) (st : state) (g : rng) : option (state * rng * exit) :=
  match fuel with
  | O => None
  | S fuel' =>
      match train_pass collate_fn cfg (data_loader (global_steps st)) st g with
      | (st, g, Aborted e) => Some (st, g, Aborted e)
      | (st, g, Finished) =>
          let st := increment st in
          if global_steps st >=? iters cfg
          then Some (st, g, Finished)
          else train_loop fuel' collate_fn cfg st g
      end
  end.

(** The state [main] enters the loop with (line 162:
    [global_steps = 0]). *)
Definition initial_state (tg : Theta_g) (gg : Grad_g) (og : RAdam_g)
    (sg : StepLR_g) (td : Theta_d) (gd : Grad_d) (od : RAdam_d)
    (sd : StepLR_d) : state :=
  {| theta_g := tg; grad_g := gg; optimizer_g := og; schedular_g := sg;
     theta_d := td; grad_d := gd; optimizer_d := od; schedular_d := sd;
     global_steps := 0; calls := [] |}.

(** The calls of one iteration made while [global_steps = k], of the
    pass made with that value, and of [n] consecutive passes from
    [k0] on. *)
Definition iteration_calls (cfg : config) (k : Z) : list call :=
  generator_calls cfg
  ++ (if k >? discriminator_start_iter cfg then discriminator_calls cfg
      else []).

Definition pass_calls (cfg : config) (k : Z) : list call :=
  concat (replicate (length (data_loader k)) (iteration_calls cfg k)).

Definition run_calls (cfg : config) (k0 : Z) (n : nat) : list call :=
  concat (map (fun i => pass_calls cfg (k0 + Z.of_nat i)) (seq 0 n)).

(** Between two states, nothing was done to the discriminator: its
    parameters, optimizer state and scheduler state are the same and no
    discriminator call was made. *)
Definition discriminator_untouched (st st' : state) : Prop :=
  theta_d st' = theta_d st /\
  optimizer_d st' = optimizer_d st /\
  schedular_d st' = schedular_d st /\
  exists new_calls,
    calls st' = calls st ++ new_calls /\
    existsb is_discriminator_call new_calls = false.

(** [main], from the construction of the collater on: a zero hop size
    ends the run before the loop is entered. *)
Definition main (fuel : nat) (batch_max_steps0 hop_size0 aux0 : Z)
    (cfg : config) (st0 : state) (g : rng) : option (state * rng * exit) :=
  match __init__ batch_max_steps0 hop_size0 aux0 with
  | Raise e => Some (st0, g, Aborted e)
  | Ok collate_fn => train_loop fuel collate_fn cfg st0 g
  end.

(** ** Properties of the primitives *)

Lemma slice_index_range (n i : Z) :
  0 <= n -> 0 <= slice_index n i <= n.
Proof.
  intros Hn. unfold slice_index.
  destruct (Z.ltb_spec i 0); lia.
Qed.

(** A bound that already lies inside the sequence is used as it is. *)
Lemma slice_index_inside (n i : Z) :
  0 <= i <= n -> slice_index n i = i.
Proof.
  intros Hi. unfold slice_index.
  destruct (Z.ltb_spec i 0); lia.
Qed.

(** Clamping commutes with a change of time resolution. *)
Lemma slice_index_scale (n i h : Z) :
  0 < h -> slice_index (n * h) (i * h) = slice_index n i * h.
Proof.
  intros Hh. unfold slice_index.
  destruct (Z.ltb_spec (i * h) 0), (Z.ltb_spec i 0); try nia.
Qed.

Lemma len_slice {A} (l : list A) (lo hi : Z) :
  len (slice l lo hi)
  = Z.max 0 (slice_index (len l) hi - slice_index (len l) lo).
Proof.
  unfold slice, len. rewrite length_take, length_drop.
  pose proof (slice_index_range (Z.of_nat (length l)) lo).
  pose proof (slice_index_range (Z.of_nat (length l)) hi).
  lia.
Qed.

Lemma len_slice_inside {A} (l : list A) (lo hi : Z) :
  0 <= lo <= hi -> hi <= len l -> len (slice l lo hi) = hi - lo.
Proof.
  intros H1 H2. rewrite len_slice, !slice_index_inside; lia.
Qed.

Lemma assert_ok (b : bool) : assert_ b = Ok tt <-> b = true.
Proof. destruct b; simpl; split; congruence. Qed.

(** The assertion of the source passes exactly on aligned pairs. *)
Lemma _assert_ready_for_upsampling_spec x c h w :
  _assert_ready_for_upsampling x c h w = Ok tt <-> ready_for_upsampling x c h w.
Proof.
  unfold _assert_ready_for_upsampling, ready_for_upsampling.
  rewrite assert_ok. apply Z.eqb_eq.
Qed.

Lemma _assert_ready_for_upsampling_raise x c h w :
  ~ ready_for_upsampling x c h w ->
  _assert_ready_for_upsampling x c h w = Raise AssertionError.
Proof.
  unfold _assert_ready_for_upsampling, ready_for_upsampling. intros H.
  destruct (Z.eqb_spec (len x) ((len2 c - 2 * w) * h)); [contradiction | done].
Qed.

(** ** The constructor *)

(** [__init__] raises exactly on a zero hop size; otherwise the stored
    length is [hop_size * (batch_max_steps // hop_size)]. *)
Lemma __init___spec (b h w : Z) :
  __init__ b h w =
  if h =? 0 then Raise ZeroDivisionError
  else Ok {| batch_max_steps := h * (b / h); batch_max_frames := b / h;
             hop_size := h; aux_context_window := w |}.
Proof.
  unfold __init__, mod_, floordiv.
  destruct (Z.eqb_spec h 0) as [->|Hh]; [reflexivity|]. simpl.
  pose proof (Z.div_mod b h Hh) as Hdm.
  assert (Hn : (if negb (b mod h =? 0) then b + - (b mod h) else b)
               = h * (b / h)).
  { destruct (Z.eqb_spec (b mod h) 0); simpl; lia. }
  rewrite Hn.
  assert (Hm : (h * (b / h)) mod h = 0).
  { rewrite Z.mul_comm. by apply Z.mod_mul. }
  rewrite Hm. simpl.
  rewrite (Z.mul_comm h), Z.div_mul by assumption.
  reflexivity.
Qed.

(** ** The time resolution adjustment of one pair *)

Lemma randint_inv low high g v g' :
  randint low high g = Ok (v, g') -> low <= v < high.
Proof.
  unfold randint. destruct (Z.ltb_spec low high); [|discriminate].
  intros [= <- _].
  pose proof (Z.mod_pos_bound (np_random g 0%nat) (high - low)). lia.
Qed.

(** Every offset of the interval is drawn by some generator state. *)
Lemma randint_complete low high v tr :
  low <= v < high ->
  exists g g', randint low high g = Ok (v, g') /\ torch_random g = tr.
Proof.
  intros Hv.
  exists {| np_random := fun _ => v - low; torch_random := tr |}.
  eexists. split; [|reflexivity].
  unfold randint. destruct (Z.ltb_spec low high); [|lia]. simpl.
  rewrite Z.mod_small by lia. do 2 f_equal. lia.
Qed.

Lemma randint_empty low high g :
  high <= low -> randint low high g = Raise ValueError.
Proof.
  intros H. unfold randint. destruct (Z.ltb_spec low high); [lia|done].
Qed.

(** What a successful adjustment returns: the raw pair was aligned, and
    the pair either passed through or was cropped at an offset of the
    interval, the crop being aligned for the configured window. *)
Lemma adjust_inv self x c g x' c' g' :
  adjust self (x, c) g = Ok ((x', c'), g') ->
  ready_for_upsampling x c (hop_size self) 0 /\
  ((len x <= batch_max_steps self /\ x' = x /\ c' = c /\ g' = g) \/
   (len x > batch_max_steps self /\
    exists s,
      aux_context_window self <= s
        < len2 c - batch_max_frames self - aux_context_window self /\
      x' = slice x (s * hop_size self)
             (s * hop_size self + batch_max_steps self) /\
      c' = slice2 c (s - aux_context_window self)
             (s + aux_context_window self + batch_max_frames self) /\
      ready_for_upsampling x' c' (hop_size self) (aux_context_window self))).
Proof.
  unfold adjust, bindM, lift, ret. intros H.
  destruct (_assert_ready_for_upsampling x c (hop_size self) 0) as [[]|e] eqn:H0;
    [|discriminate].
  apply _assert_ready_for_upsampling_spec in H0. split; [exact H0|].
  destruct (Z.gtb_spec (len x) (batch_max_steps self)) as [Hgt|Hle].
  - destruct (randint _ _ g) as [[s g1]|e] eqn:Hr; [|discriminate].
    apply randint_inv in Hr.
    destruct (_assert_ready_for_upsampling _ _ _ _) as [[]|e] eqn:H1;
      [|discriminate].
    apply _assert_ready_for_upsampling_spec in H1.
    injection H as <- <- <-. right. split; [lia|]. exists s.
    repeat split; auto; lia.
  - injection H as <- <- <-. left. repeat split; auto.
Qed.

(** A pair that is aligned and not longer than the target passes
    through, and the generator state is not advanced. *)
Lemma adjust_pass_through self x c g :
  ready_for_upsampling x c (hop_size self) 0 ->
  len x <= batch_max_steps self ->
  adjust self (x, c) g = Ok ((x, c), g).
Proof.
  intros H0 Hle. unfold adjust, bindM, lift, ret.
  apply _assert_ready_for_upsampling_spec in H0. rewrite H0.
  destruct (Z.gtb_spec (len x) (batch_max_steps self)); [lia|reflexivity].
Qed.

(** The crop branch, forwards: with a non-empty interval the pair is
    cut at the drawn offset, and the only thing left to fail is the
    assertion on the crop. *)
Lemma adjust_crop self x c g :
  ready_for_upsampling x c (hop_size self) 0 ->
  len x > batch_max_steps self ->
  aux_context_window self
    < len2 c - batch_max_frames self - aux_context_window self ->
  exists s g',
    aux_context_window self <= s
      < len2 c - batch_max_frames self - aux_context_window self /\
    let x' := slice x (s * hop_size self)
                (s * hop_size self + batch_max_steps self) in
    let c' := slice2 c (s - aux_context_window self)
                (s + aux_context_window self + batch_max_frames self) in
    adjust self (x, c) g =
    if decide (ready_for_upsampling x' c' (hop_size self)
                 (aux_context_window self))
    then Ok ((x', c'), g') else Raise AssertionError.
Proof.
  intros H0 Hgt Hne. unfold adjust, bindM, lift, ret.
  apply _assert_ready_for_upsampling_spec in H0. rewrite H0.
  destruct (Z.gtb_spec (len x) (batch_max_steps self)); [|lia].
  destruct (randint _ _ g) as [[s g1]|e] eqn:Hr.
  - exists s, g1. split; [by apply randint_inv in Hr|]. simpl.
    case_decide as Hd.
    + apply _assert_ready_for_upsampling_spec in Hd. by rewrite Hd.
    + by rewrite _assert_ready_for_upsampling_raise.
  - unfold randint in Hr.
    destruct (Z.ltb_spec (aux_context_window self)
                (len2 c - batch_max_frames self - aux_context_window self));
      [discriminate|lia].
Qed.

(** With a positive hop size, a target that is a non-negative multiple
    of it and a non-negative window, a crop taken at an offset of the
    interval has exactly the target length, with the window's frames on
    both sides of the features. *)
Lemma crop_lengths (x : audio) (c : features) (h q w s : Z) :
  0 < h -> 0 <= q -> 0 <= w ->
  len x = len2 c * h ->
  w <= s < len2 c - q - w ->
  len (slice x (s * h) (s * h + q * h)) = q * h /\
  len2 (slice2 c (s - w) (s + w + q)) = q + 2 * w.
Proof.
  intros Hh Hq Hw Hx Hs. unfold len2, slice2. simpl. split.
  - rewrite len_slice_inside; rewrite ?Hx; unfold len2 in *; nia.
  - rewrite len_slice_inside; unfold len2 in *; lia.
Qed.

(** Without context frames the crop of an aligned pair is aligned,
    wherever it is taken and however the slice bounds are clamped. *)
Lemma crop_ready_without_context (x : audio) (c : features) (h q s : Z) :
  0 < h ->
  len x = len2 c * h ->
  ready_for_upsampling (slice x (s * h) (s * h + q * h))
                       (slice2 c (s - 0) (s + 0 + q)) h 0.
Proof.
  intros Hh Hx. unfold ready_for_upsampling, len2, slice2. simpl.
  rewrite !len_slice, Hx. unfold len2.
  replace (s * h + q * h) with ((s + q) * h) by lia.
  rewrite !slice_index_scale by assumption.
  replace (s - 0) with s by lia. replace (s + 0 + q) with (s + q) by lia.
  nia.
Qed.

(** An aligned pair that fits the configured length also fits the
    normalised one: its length is a multiple of the hop size. *)
Lemma fits_normalised_length b h w self (x : audio) (c : features) :
  0 < h -> __init__ b h w = Ok self ->
  ready_for_upsampling x c h 0 ->
  len x <= b -> len x <= batch_max_steps self.
Proof.
  intros Hh Hi Hx Hb. rewrite __init___spec in Hi.
  destruct (Z.eqb_spec h 0); [lia|]. injection Hi as <-. simpl.
  unfold ready_for_upsampling in Hx. rewrite Hx in *.
  assert (len2 c - 2 * 0 <= b / h).
  { apply Z.div_le_lower_bound; lia. }
  nia.
Qed.

(** C1 (amended): an adjustment that does not fail was given an aligned
    raw pair (window 0).  If the pair was cropped, the output is
    aligned for the configured context window.  If it passed through,
    the output is the input, aligned for window 0; it is aligned for
    the configured window exactly when
    [aux_context_window * hop_size = 0]. *)
Theorem adjust_alignment self x c g x' c' g' :
  adjust self (x, c) g = Ok ((x', c'), g') ->
  ready_for_upsampling x c (hop_size self) 0 /\
  (len x > batch_max_steps self ->
   ready_for_upsampling x' c' (hop_size self) (aux_context_window self)) /\
  (len x <= batch_max_steps self ->
   x' = x /\ c' = c /\
   ready_for_upsampling x' c' (hop_size self) 0 /\
   (ready_for_upsampling x' c' (hop_size self) (aux_context_window self)
    <-> aux_context_window self * hop_size self = 0)).
Proof.
  intros H. apply adjust_inv in H as [H0 [(Hle & -> & -> & ->)|(Hgt & s & Hs & -> & -> & H1)]].
  - split; [exact H0|]. split; [lia|]. intros _.
    repeat split; auto; unfold ready_for_upsampling in *; lia.
  - split; [exact H0|]. split; [auto|lia].
Qed.

(** C2: for a positive hop size the constructor returns a collater
    that stores, once and for all, [batch_max_steps] rounded down to the
    nearest multiple of the hop size: a multiple of the hop size, not
    above the configured length and less than one hop below it, with
    the matching number of frames.  Every pair longer than the stored
    length that the adjustment accepts comes out with audio of exactly
    that length (and with that many frames plus the context window on
    both sides), the lengths being non-negative. *)
Theorem crop_has_normalised_length b h w :
  0 < h ->
  exists self,
    __init__ b h w = Ok self /\
    hop_size self = h /\ aux_context_window self = w /\
    batch_max_steps self = h * (b / h) /\
    batch_max_steps self mod h = 0 /\
    batch_max_steps self <= b < batch_max_steps self + h /\
    batch_max_frames self = b / h /\
    (0 <= b -> 0 <= w ->
     forall x c g x' c' g',
       adjust self (x, c) g = Ok ((x', c'), g') ->
       len x > batch_max_steps self ->
       len x' = batch_max_steps self /\
       len2 c' = batch_max_frames self + 2 * w).
Proof.
  intros Hh. rewrite __init___spec.
  destruct (Z.eqb_spec h 0); [lia|].
  eexists. split; [reflexivity|].
  cbn [hop_size aux_context_window batch_max_steps batch_max_frames].
  pose proof (Z.div_mod b h ltac:(lia)) as Hdm.
  pose proof (Z.mod_pos_bound b h Hh) as Hmb.
  split; [reflexivity|]. split; [reflexivity|]. split; [reflexivity|].
  split; [rewrite Z.mul_comm; by apply Z.mod_mul|].
  split; [lia|]. split; [reflexivity|].
  intros Hb Hw x c g x' c' g' Ha Hgt.
  assert (0 <= b / h) by (apply Z.div_pos; lia).
  apply adjust_inv in Ha as [H0 Ha].
  cbn [hop_size aux_context_window batch_max_steps batch_max_frames] in *.
  destruct Ha as [(Hle & _)|(_ & s & Hs & -> & -> & _)]; [lia|].
  unfold ready_for_upsampling in H0.
  replace (h * (b / h)) with (b / h * h) by lia.
  replace (h * (b / h)) with (b / h * h) in Hgt by lia.
  apply crop_lengths; auto; lia.
Qed.

(** C6: a pair whose audio is not longer than the target is never
    altered: if it meets the asserted precondition (it is aligned for
    window 0) the adjustment returns it unchanged, without drawing an
    offset; the only other outcome is the failure of that assertion.
    Adjusting the result once more gives the same outcome again. *)
Theorem adjust_short_pair self x c g :
  len x <= batch_max_steps self ->
  adjust self (x, c) g
  = (if decide (ready_for_upsampling x c (hop_size self) 0)
     then Ok ((x, c), g) else Raise AssertionError) /\
  (ready_for_upsampling x c (hop_size self) 0 ->
   adjust self (x, c) g = Ok ((x, c), g)) /\
  (b <~ adjust self (x, c) ;; adjust self b) g = adjust self (x, c) g.
Proof.
  intros Hle.
  assert (Hr : ready_for_upsampling x c (hop_size self) 0 ->
               adjust self (x, c) g = Ok ((x, c), g))
    by (intros H0; by apply adjust_pass_through).
  assert (Hn : ~ ready_for_upsampling x c (hop_size self) 0 ->
               adjust self (x, c) g = Raise AssertionError).
  { intros H0. unfold adjust, bindM, lift.
    by rewrite _assert_ready_for_upsampling_raise. }
  split; [|split; [exact Hr|]].
  - case_decide as H0; auto.
  - unfold bindM at 1.
    destruct (decide (ready_for_upsampling x c (hop_size self) 0)) as [H0|H0].
    + rewrite (Hr H0). cbv beta iota. exact (Hr H0).
    + by rewrite (Hn H0).
Qed.

(** C10: with a positive hop size, a non-negative configured length and
    no context window, an aligned pair longer than the normalised target
    always has offsets to choose from, all of them frames of the pair,
    and its adjustment returns a crop: neither the draw nor the
    assertion on the crop can fail. *)
Theorem crop_succeeds_without_context b h self x c g :
  0 < h -> 0 <= b ->
  __init__ b h 0 = Ok self ->
  ready_for_upsampling x c (hop_size self) 0 ->
  len x > batch_max_steps self ->
  aux_context_window self
    < len2 c - batch_max_frames self - aux_context_window self /\
  0 <= aux_context_window self /\
  len2 c - batch_max_frames self - aux_context_window self <= len2 c /\
  exists x' c' g', adjust self (x, c) g = Ok ((x', c'), g').
Proof.
  intros Hh Hb Hi H0 Hgt. rewrite __init___spec in Hi.
  destruct (Z.eqb_spec h 0); [lia|]. injection Hi as <-. simpl in *.
  assert (Hne : 0 < len2 c - b / h - 0).
  { unfold ready_for_upsampling in H0. nia. }
  split; [exact Hne|]. split; [lia|].
  split; [assert (0 <= b / h) by (apply Z.div_pos; lia); lia|].
  destruct (adjust_crop
              {| batch_max_steps := h * (b / h); batch_max_frames := b / h;
                 hop_size := h; aux_context_window := 0 |}
              x c g H0 Hgt Hne) as (s & g' & Hs & Ha).
  simpl in Ha. rewrite Ha. case_decide as Hd; [eauto|].
  exfalso. apply Hd.
  replace (h * (b / h)) with (b / h * h) by lia.
  apply crop_ready_without_context; [assumption|].
  unfold ready_for_upsampling in H0. lia.
Qed.

(** ** The batch *)

Lemma adjust_batch_length self batch g new_batch g' :
  adjust_batch self batch g = Ok (new_batch, g') ->
  length new_batch = length batch.
Proof.
  revert g new_batch. induction batch as [|b batch IH]; intros g nb; simpl.
  - unfold ret. by intros [= <- _].
  - unfold bindM, ret.
    destruct (adjust self b g) as [[b' g1]|]; [|discriminate].
    destruct (adjust_batch self batch g1) as [[nb' g2]|] eqn:E; [|discriminate].
    intros [= <- <-]. simpl. f_equal. eauto.
Qed.

(** Each adjusted pair is the adjustment of the pair at its position,
    for the generator state reached there. *)
Lemma adjust_batch_lookup self batch g new_batch g' i b' :
  adjust_batch self batch g = Ok (new_batch, g') ->
  new_batch !! i = Some b' ->
  exists b g1 g2, batch !! i = Some b /\ adjust self b g1 = Ok (b', g2).
Proof.
  revert g new_batch i. induction batch as [|b batch IH]; intros g nb i; simpl.
  - unfold ret. intros [= <- _]. by rewrite lookup_nil.
  - unfold bindM, ret.
    destruct (adjust self b g) as [[b1 g1]|] eqn:E1; [|discriminate].
    destruct (adjust_batch self batch g1) as [[nb' g2]|] eqn:E; [|discriminate].
    intros [= <- <-]. destruct i as [|i]; simpl.
    + intros [= <-]. eauto.
    + intros Hi. eapply IH; eauto.
Qed.

(** The first pair whose adjustment raises ends the loop. *)
Lemma adjust_batch_raise self pre b post g0 new_pre g e :
  adjust_batch self pre g0 = Ok (new_pre, g) ->
  adjust self b g = Raise e ->
  adjust_batch self (pre ++ b :: post) g0 = Raise e.
Proof.
  revert g0 new_pre. induction pre as [|p pre IH]; intros g0 np; simpl.
  - unfold ret, bindM. intros [= _ ->] ->. reflexivity.
  - unfold bindM, ret.
    destruct (adjust self p g0) as [[p1 g1]|]; [|discriminate].
    destruct (adjust_batch self pre g1) as [[np' g2]|] eqn:E; [|discriminate].
    intros [= _ ->] Hb. by rewrite (IH _ _ E Hb).
Qed.

Lemma __call___raise self batch g e :
  adjust_batch self batch g = Raise e -> __call__ self batch g = Raise e.
Proof. intros H. unfold __call__, bindM. by rewrite H. Qed.

Lemma train_pass_cons self cfg batch batches st g :
  train_pass self cfg (batch :: batches) st g =
  match __call__ self batch g with
  | Raise e => (st, g, Aborted e)
  | Ok (b, g') => train_pass self cfg batches (train_step cfg st b) g'
  end.
Proof. reflexivity. Qed.

(** A pass over [l1 ++ l2] is the pass over [l1], continued over [l2]
    unless it was aborted. *)
Lemma train_pass_app self cfg l1 l2 st g :
  train_pass self cfg (l1 ++ l2) st g =
  match train_pass self cfg l1 st g with
  | (st', g', Finished) => train_pass self cfg l2 st' g'
  | r => r
  end.
Proof.
  revert st g. induction l1 as [|b l1 IH]; intros st g; simpl; [done|].
  destruct (__call__ self b g) as [[bt g1]|e]; [apply IH|done].
Qed.

Lemma train_loop_abort fuel self cfg st g st' g' e :
  train_pass self cfg (data_loader (global_steps st)) st g
    = (st', g', Aborted e) ->
  train_loop (S fuel) self cfg st g = Some (st', g', Aborted e).
Proof. intros H. simpl. by rewrite H. Qed.

(** C7: when the audio of a pair exceeds the target length and the
    interval of offsets is empty, the adjustment raises ([ValueError]
    from the draw, or [AssertionError] if the raw pair was not even
    aligned); it returns neither a crop nor the pair.  The exception
    leaves [__call__] whatever pairs precede and follow, and ends the
    run when the loader collates that batch. *)
Theorem empty_interval_is_fatal self x c g :
  len x > batch_max_steps self ->
  len2 c - batch_max_frames self - aux_context_window self
    <= aux_context_window self ->
  let e := if len x =? (len2 c - 2 * 0) * hop_size self
           then ValueError else AssertionError in
  adjust self (x, c) g = Raise e /\
  (forall pre post g0 new_pre,
      adjust_batch self pre g0 = Ok (new_pre, g) ->
      __call__ self (pre ++ (x, c) :: post) g0 = Raise e) /\
  (forall fuel cfg st0 g0 batches st g1 pre post rest new_pre,
      data_loader (global_steps st0)
        = batches ++ (pre ++ (x, c) :: post) :: rest ->
      train_pass self cfg batches st0 g0 = (st, g1, Finished) ->
      adjust_batch self pre g1 = Ok (new_pre, g) ->
      train_loop (S fuel) self cfg st0 g0 = Some (st, g1, Aborted e)).
Proof.
  intros Hgt Hempty e.
  assert (Ha : adjust self (x, c) g = Raise e).
  { unfold adjust, bindM, lift, _assert_ready_for_upsampling. subst e.
    destruct (Z.eqb_spec (len x) ((len2 c - 2 * 0) * hop_size self));
      simpl; [|reflexivity].
    destruct (Z.gtb_spec (len x) (batch_max_steps self)); [|lia].
    by rewrite randint_empty. }
  assert (Hc : forall pre post g0 new_pre,
             adjust_batch self pre g0 = Ok (new_pre, g) ->
             __call__ self (pre ++ (x, c) :: post) g0 = Raise e).
  { intros pre post g0 np Hpre. apply __call___raise.
    eapply adjust_batch_raise; eauto. }
  split; [exact Ha|]. split; [exact Hc|].
  intros fuel cfg st0 g0 batches st g1 pre post rest np Hd Hp Hpre.
  apply train_loop_abort. rewrite Hd, train_pass_app, Hp.
  by rewrite train_pass_cons, (Hc pre post g1 np Hpre).
Qed.

(** ** Padding and stacking *)

Lemma max__spec (l : list nat) (m : nat) :
  max_ l = Ok m -> Forall (fun n => (n <= m)%nat) l /\ m ∈ l.
Proof.
  destruct l as [|n l]; [discriminate|]. simpl. intros [= <-].
  induction l as [|k l [IH1 IH2]]; simpl.
  - split; [by constructor|apply list_elem_of_here].
  - apply Forall_cons in IH1 as [IHn IHl]. split.
    + constructor; [lia|constructor; [lia|]].
      eapply Forall_impl; [exact IHl|]. simpl. intros; lia.
    + destruct (Nat.max_spec k (foldr Nat.max n l)) as [[_ ->]|[_ ->]].
      * apply elem_of_cons in IH2 as [->|IH2];
          [apply list_elem_of_here|].
        by do 2 apply list_elem_of_further.
      * apply list_elem_of_further, list_elem_of_here.
Qed.

(** There is room to pad whenever the target length is not below the
    array's. *)
Lemma _pad_2darray_ok (x : ndarray2 sample) (max_len : nat) :
  (length (a_rows x) <= max_len)%nat ->
  _pad_2darray x (Z.of_nat max_len) 0 zero = Ok (padded max_len x).
Proof.
  intros H. unfold _pad_2darray, padded, len2, len.
  destruct (Z.ltb_spec 0 0); [lia|].
  destruct (Z.ltb_spec (Z.of_nat max_len - Z.of_nat (length (a_rows x)) - 0) 0);
    [lia|]. simpl.
  replace (Z.to_nat (Z.of_nat max_len - Z.of_nat (length (a_rows x)) - 0))
    with (max_len - length (a_rows x))%nat by lia.
  reflexivity.
Qed.

Lemma length_padded (x : ndarray2 sample) (max_len : nat) :
  (length (a_rows x) <= max_len)%nat ->
  length (a_rows (padded max_len x)) = max_len.
Proof.
  intros H. unfold padded. simpl. rewrite length_app, length_replicate. lia.
Qed.

Lemma comprehension_map {A B} (f : A -> result B) (h : A -> B) (l : list A) :
  Forall (fun a => f a = Ok (h a)) l ->
  comprehension f l = Ok (map h l).
Proof.
  induction 1 as [|a l Ha _ IH]; simpl; [done|]. by rewrite Ha, IH.
Qed.

(** Arrays of one length stack exactly when their second extents
    agree. *)
Lemma float_tensor_stack (a : ndarray2 sample) (l : list (ndarray2 sample))
    (n : nat) :
  Forall (fun b => length (a_rows b) = n) (a :: l) ->
  float_tensor (a :: l) =
  if forallb (fun b => Nat.eqb (a_dim a) (a_dim b)) l
  then Ok {| t_shape := (S (length l), n, a_dim a);
             t_data := map (fun b => map (map to_f32) (a_rows b)) (a :: l) |}
  else Raise ValueError.
Proof.
  intros H. apply Forall_cons in H as [Ha Hl]. unfold float_tensor.
  assert (E : forallb (same_shape a) l
              = forallb (fun b => Nat.eqb (a_dim a) (a_dim b)) l).
  { induction Hl as [|b l Hb _ IH]; simpl; [done|]. rewrite IH.
    f_equal. unfold same_shape. rewrite Ha, Hb, Nat.eqb_refl. done. }
  rewrite E, Ha. reflexivity.
Qed.

Lemma map_replicate {A B} (f : A -> B) (n : nat) (a : A) :
  map f (replicate n a) = replicate n (f a).
Proof. induction n as [|n IH]; simpl; [done|]. by rewrite IH. Qed.

(** Transposing a column gives the single row of its entries. *)
Lemma transpose_rows_column {A} (l : list A) :
  transpose_rows 1 (map (fun v => [v]) l) = [l].
Proof.
  unfold transpose_rows. induction l as [|v l IH]; [done|].
  cbn [map foldr]. by rewrite IH.
Qed.

(** The padded audio column of one item, as the row the target tensor
    holds for it. *)
Lemma padded_column_row (max_olen : nat) (x : audio) :
  transpose_rows 1
    (map (map to_f32) (a_rows (padded max_olen (reshape_column x))))
  = [map to_f32 x ++ replicate (max_olen - length x) (to_f32 zero)].
Proof.
  unfold padded, reshape_column. simpl.
  rewrite length_map, map_app, map_map, map_replicate. simpl.
  rewrite <- transpose_rows_column. f_equal.
  rewrite map_app, map_map, map_replicate. reflexivity.
Qed.

Lemma randn_spec (size : nat * nat * nat) (g : rng) :
  exists z g', randn size g = Ok (z, g') /\
               t_shape z = size /\ well_shaped z /\
               np_random g' = np_random g.
Proof.
  destruct size as [[n0 n1] n2]. unfold randn. do 2 eexists.
  split; [reflexivity|]. split; [reflexivity|]. split; [|reflexivity].
  unfold well_shaped. simpl. split; [by rewrite length_map, length_seq|].
  apply Forall_forall. intros m Hm. apply list_elem_of_In, in_map_iff in Hm as (i & <- & _).
  split; [by rewrite length_map, length_seq|].
  apply Forall_forall. intros r Hr. apply list_elem_of_In, in_map_iff in Hr as (j & <- & _).
  by rewrite length_map, length_seq.
Qed.

Lemma forallb_map {A B} (f : B -> bool) (h : A -> B) (l : list A) :
  forallb f (map h l) = forallb (fun a => f (h a)) l.
Proof. induction l as [|a l IH]; simpl; [done|]. by rewrite IH. Qed.

Lemma foldr_max_ge (n : nat) (l : list nat) :
  Forall (fun k => (k <= foldr Nat.max n l)%nat) (n :: l).
Proof. by apply (max__spec (n :: l)). Qed.

(** [__call__] in closed form, in terms of the adjusted pairs: the
    batch must not be empty and the feature dimensions must agree;
    then every audio is one row padded with zeros to the longest audio,
    every feature matrix is padded with zero frames to the longest one
    and transposed, and the noise is drawn with the target's shape. *)
Lemma __call___spec self batch g new_batch g1 :
  adjust_batch self batch g = Ok (new_batch, g1) ->
  __call__ self batch g =
  match new_batch with
  | [] => Raise ValueError
  | p0 :: rest =>
      let max_olen :=
        foldr Nat.max (length (fst p0)) (map (fun b => length (fst b)) rest) in
      let max_clen :=
        foldr Nat.max (length (a_rows (snd p0)))
              (map (fun b => length (a_rows (snd b))) rest) in
      let d := a_dim (snd p0) in
      if forallb (fun b => Nat.eqb d (a_dim (snd b))) rest then
        match randn (length new_batch, 1%nat, max_olen) g1 with
        | Ok (z, g') =>
            Ok ({| z_batch := z;
                   c_batch :=
                     {| t_shape := (length new_batch, d, max_clen);
                        t_data :=
                          map (fun b =>
                                 transpose_rows d
                                   (map (map to_f32)
                                      (a_rows (padded max_clen (snd b)))))
                              new_batch |};
                   y_batch :=
                     {| t_shape := (length new_batch, 1%nat, max_olen);
                        t_data :=
                          map (fun b =>
                                 [map to_f32 (fst b)
                                  ++ replicate (max_olen - length (fst b))
                                       (to_f32 zero)])
                              new_batch |};
                   input_lengths := map (fun b => length (fst b)) new_batch |},
                g')
        | Raise e => Raise e
        end
      else Raise ValueError
  end.
Proof.
  intros H. unfold __call__. unfold bindM at 1. rewrite H.
  destruct new_batch as [|p0 rest]; [reflexivity|].
  set (nb := p0 :: rest).
  set (mx := foldr Nat.max (length (fst p0))
               (map (fun b => length (fst b)) rest)).
  set (mc := foldr Nat.max (length (a_rows (snd p0)))
               (map (fun b => length (a_rows (snd b))) rest)).
  assert (Hx : Forall (fun b : audio * features => (length (fst b) <= mx)%nat) nb).
  { pose proof (foldr_max_ge (length (fst p0))
                  (map (fun b => length (fst b)) rest)) as Hm.
    change (Forall (fun k => (k <= mx)%nat)
              (map (fun b : audio * features => length (fst b)) nb)) in Hm.
    by apply Forall_map in Hm. }
  assert (Hc : Forall (fun b : audio * features =>
                         (length (a_rows (snd b)) <= mc)%nat) nb).
  { pose proof (foldr_max_ge (length (a_rows (snd p0)))
                  (map (fun b => length (a_rows (snd b))) rest)) as Hm.
    change (Forall (fun k => (k <= mc)%nat)
              (map (fun b : audio * features => length (a_rows (snd b))) nb))
      in Hm.
    by apply Forall_map in Hm. }
  assert (E1 : max_ (map (fun b : audio * features => length (fst b)) nb) = Ok mx)
    by reflexivity.
  assert (E2 : comprehension
                 (fun b : audio * features =>
                    _pad_2darray (reshape_column (fst b)) (Z.of_nat mx) 0 zero)
                 nb
               = Ok (map (fun b => padded mx (reshape_column (fst b))) nb)).
  { apply comprehension_map. eapply Forall_impl; [exact Hx|]. simpl.
    intros b Hb. apply _pad_2darray_ok. simpl. by rewrite length_map. }
  assert (E3 : float_tensor
                 (map (fun b : audio * features =>
                         padded mx (reshape_column (fst b))) nb)
               = Ok {| t_shape := (length nb, mx, 1%nat);
                       t_data :=
                         map (fun b => map (map to_f32) (a_rows b))
                             (map (fun b : audio * features =>
                                     padded mx (reshape_column (fst b))) nb) |}).
  { subst nb. cbn [map]. rewrite (float_tensor_stack _ _ mx).
    - rewrite forallb_map. simpl.
      replace (forallb _ rest) with true; [by rewrite length_map|].
      symmetry. apply forallb_forall. done.
    - rewrite <- (map_cons (fun b : audio * features =>
                              padded mx (reshape_column (fst b)))).
      apply Forall_map. eapply Forall_impl; [exact Hx|].
      intros b Hb. cbv beta in *. apply length_padded.
      simpl. by rewrite length_map. }
  assert (E4 : max_ (map (fun b : audio * features =>
                            length (a_rows (snd b))) nb) = Ok mc)
    by reflexivity.
  assert (E5 : comprehension
                 (fun b : audio * features =>
                    _pad_2darray (snd b) (Z.of_nat mc) 0 zero) nb
               = Ok (map (fun b => padded mc (snd b)) nb)).
  { apply comprehension_map. eapply Forall_impl; [exact Hc|]. simpl.
    intros b Hb. by apply _pad_2darray_ok. }
  assert (E6 : float_tensor
                 (map (fun b : audio * features => padded mc (snd b)) nb)
               = if forallb (fun b => Nat.eqb (a_dim (snd p0)) (a_dim (snd b)))
                            rest
                 then Ok {| t_shape := (length nb, mc, a_dim (snd p0));
                            t_data :=
                              map (fun b => map (map to_f32) (a_rows b))
                                  (map (fun b : audio * features =>
                                          padded mc (snd b)) nb) |}
                 else Raise ValueError).
  { subst nb. cbn [map]. rewrite (float_tensor_stack _ _ mc).
    - rewrite forallb_map. simpl. by rewrite length_map.
    - rewrite <- (map_cons (fun b : audio * features => padded mc (snd b))).
      apply Forall_map. eapply Forall_impl; [exact Hc|].
      intros b Hb. cbv beta in *. by apply length_padded. }
  unfold bindM, lift, ret. rewrite E1, E2, E3, E4, E5, E6.
  cbv zeta.
  destruct (forallb _ rest); [|reflexivity].
  unfold transpose21. cbn [t_shape t_data].
  destruct (randn (length nb, 1%nat, mx) g1) as [[z g']|e]; [|reflexivity].
  do 3 f_equal. f_equal.
  - f_equal. rewrite !map_map. reflexivity.
  - f_equal. rewrite !map_map. apply map_ext. intros b.
    apply padded_column_row.
Qed.

(** A successful [__call__] went through a successful adjustment of
    every pair. *)
Lemma __call___inv self batch g b g' :
  __call__ self batch g = Ok (b, g') ->
  exists new_batch g1, adjust_batch self batch g = Ok (new_batch, g1).
Proof.
  intros H. destruct (adjust_batch self batch g) as [[nb g1]|e] eqn:E;
    [eauto|]. apply __call___raise in E. congruence.
Qed.

(** The adjustment keeps the feature dimension. *)
Lemma adjust_a_dim self b g b' g' :
  adjust self b g = Ok (b', g') -> a_dim (snd b') = a_dim (snd b).
Proof.
  destruct b as [x c], b' as [x' c']. intros H.
  by apply adjust_inv in H
    as [_ [(_ & -> & -> & _)|(_ & s & _ & -> & -> & _)]].
Qed.

(** A batch is collated whenever it is not empty, every pair is adjusted
    and the features have one dimension: the maxima are taken over the
    batch that is padded, so there is always room to pad. *)
Lemma __call___succeeds self batch g new_batch g1 (d : nat) :
  adjust_batch self batch g = Ok (new_batch, g1) ->
  batch <> [] ->
  Forall (fun p => a_dim (snd p) = d) batch ->
  exists b g', __call__ self batch g = Ok (b, g').
Proof.
  intros Ha Hne Hd. rewrite (__call___spec _ _ _ _ _ Ha).
  assert (Hnb : Forall (fun p : audio * features => a_dim (snd p) = d)
                       new_batch).
  { apply Forall_lookup. intros i b' Hi.
    destruct (adjust_batch_lookup _ _ _ _ _ _ _ Ha Hi)
      as (b & ga & gb & Hb & Hadj).
    rewrite (adjust_a_dim _ _ _ _ _ Hadj).
    by apply (Forall_lookup_1 _ _ _ _ Hd Hb). }
  pose proof (adjust_batch_length _ _ _ _ _ Ha) as Hlen.
  destruct new_batch as [|p0 rest];
    [destruct batch; [done|discriminate]|].
  cbv zeta. apply Forall_cons in Hnb as [H0 Hrest].
  replace (forallb _ rest) with true.
  - destruct (randn_spec (length (p0 :: rest), 1%nat,
                foldr Nat.max (length (fst p0))
                      (map (fun b => length (fst b)) rest)) g1)
      as (z & g' & -> & _). eauto.
  - symmetry. apply forallb_forall. intros q Hq. apply Nat.eqb_eq.
    rewrite H0. symmetry.
    by apply (proj1 (Forall_forall _ _) Hrest), list_elem_of_In.
Qed.

Lemma well_shaped_rows (n0 n : nat) (rows : list (list f32))
    (data : list (list (list f32))) :
  n0 = length rows ->
  data = map (fun r => [r]) rows ->
  Forall (fun r => length r = n) rows ->
  well_shaped {| t_shape := (n0, 1%nat, n); t_data := data |}.
Proof.
  intros -> -> H. unfold well_shaped. simpl. split; [by rewrite length_map|].
  apply Forall_map. eapply Forall_impl; [exact H|].
  intros r Hr. simpl. split; [done|]. by repeat constructor.
Qed.

(** C8: on every batch it accepts, [__call__] returns a noise tensor of
    the same shape [(B, 1, T)] as the padded target tensor (both with
    data of that shape), a conditioning tensor whose last extent is the
    largest feature length after the adjustment, and a vector of [B]
    lengths, the audio lengths after the adjustment and before the
    padding, none above [T]; [B] is the (non-zero) size of the batch
    and [T] the largest of those lengths. *)
Theorem collated_shapes self batch g b g' :
  __call__ self batch g = Ok (b, g') ->
  exists new_batch g1 max_olen max_clen d,
    adjust_batch self batch g = Ok (new_batch, g1) /\
    batch <> [] /\
    max_ (map (fun p => length (fst p)) new_batch) = Ok max_olen /\
    max_ (map (fun p => length (a_rows (snd p))) new_batch) = Ok max_clen /\
    t_shape (y_batch b) = (length batch, 1%nat, max_olen) /\
    t_shape (z_batch b) = t_shape (y_batch b) /\
    well_shaped (y_batch b) /\ well_shaped (z_batch b) /\
    t_shape (c_batch b) = (length batch, d, max_clen) /\
    Forall (fun n => (n <= max_clen)%nat)
           (map (fun p => length (a_rows (snd p))) new_batch) /\
    max_clen ∈ map (fun p => length (a_rows (snd p))) new_batch /\
    length (input_lengths b) = length batch /\
    input_lengths b = map (fun p => length (fst p)) new_batch /\
    Forall (fun n => (n <= max_olen)%nat) (input_lengths b).
Proof.
  intros H. destruct (__call___inv _ _ _ _ _ H) as (nb & g1 & Ha).
  pose proof (adjust_batch_length _ _ _ _ _ Ha) as Hlen.
  rewrite (__call___spec _ _ _ _ _ Ha) in H.
  destruct nb as [|p0 rest]; [discriminate|]. cbv zeta in H.
  destruct (forallb _ rest); [|discriminate].
  destruct (randn_spec (length (p0 :: rest), 1%nat,
              foldr Nat.max (length (fst p0))
                    (map (fun b => length (fst b)) rest)) g1)
    as (z & g2 & Hz & Hsz & Hwz & _).
  rewrite Hz in H. injection H as <- <-.
  set (mx := foldr Nat.max (length (fst p0))
               (map (fun b => length (fst b)) rest)) in *.
  set (mc := foldr Nat.max (length (a_rows (snd p0)))
               (map (fun b => length (a_rows (snd b))) rest)) in *.
  assert (E1 : max_ (map (fun b : audio * features => length (fst b))
                         (p0 :: rest)) = Ok mx) by reflexivity.
  assert (E2 : max_ (map (fun b : audio * features => length (a_rows (snd b)))
                         (p0 :: rest)) = Ok mc) by reflexivity.
  destruct (max__spec _ _ E1) as [Hx _].
  destruct (max__spec _ _ E2) as [Hc Hin].
  exists (p0 :: rest), g1, mx, mc, (a_dim (snd p0)).
  cbn [z_batch c_batch y_batch input_lengths t_shape].
  rewrite <- Hlen.
  repeat match goal with |- _ /\ _ => split end;
    try reflexivity; try assumption.
  - intros ->. discriminate.
  - apply (well_shaped_rows _ _
             (map (fun b : audio * features =>
                     map to_f32 (fst b)
                     ++ replicate (mx - length (fst b)) (to_f32 zero))
                  (p0 :: rest))).
    + simpl. by rewrite length_map.
    + by rewrite map_map.
    + apply Forall_map. apply Forall_map in Hx.
      eapply Forall_impl; [exact Hx|]. intros p Hp. cbv beta in *.
      rewrite length_app, length_map, length_replicate. lia.
  - simpl. by rewrite length_map.
Qed.

Lemma adjust_batch_pass_through self (batch : list (audio * features)) g :
  Forall (fun b => ready_for_upsampling (fst b) (snd b) (hop_size self) 0
                   /\ len (fst b) <= batch_max_steps self) batch ->
  adjust_batch self batch g = Ok (batch, g).
Proof.
  induction 1 as [|[x c] batch [H0 Hle] _ IH]; [done|].
  cbn [adjust_batch fst snd] in *. unfold bindM, ret in *.
  by rewrite (adjust_pass_through self x c g H0 Hle), IH.
Qed.

(** A padded row: the item's samples, then zeros. *)
Lemma padded_row_lookup (x : audio) (n j : nat) :
  (map to_f32 x ++ replicate n (to_f32 zero)) !! j =
  if decide (j < length x)%nat then to_f32 <$> x !! j
  else if decide (j < length x + n)%nat then Some (to_f32 zero)
  else None.
Proof.
  case_decide as Hj.
  - rewrite lookup_app_l by (by rewrite length_map).
    revert j Hj. induction x as [|v x IH]; intros j Hj; simpl in *; [lia|].
    destruct j as [|j]; simpl; [done|]. apply IH. lia.
  - rewrite lookup_app_r by (rewrite length_map; lia).
    rewrite length_map. case_decide as Hn.
    + apply lookup_replicate. split; [done|lia].
    + apply lookup_ge_None. rewrite length_replicate. lia.
Qed.

(** C9: every audio of a collated batch is one row of the target: its
    samples, then zeros up to the longest audio of the adjusted batch
    (and every feature matrix is followed by zero frames up to the
    longest one, before the transposition).  In particular, for hop
    size 1 and two aligned items of 1000 and 1500 samples that need no
    cropping, both rows have length 1500, the first holds zero at every
    position from 1000 on and its samples before, the second holds its
    samples, and the lengths are [1000; 1500]. *)
Theorem trailing_zero_padding :
  (forall self batch g b g',
      __call__ self batch g = Ok (b, g') ->
      exists new_batch g1 max_olen max_clen d,
        adjust_batch self batch g = Ok (new_batch, g1) /\
        max_ (map (fun p => length (fst p)) new_batch) = Ok max_olen /\
        max_ (map (fun p => length (a_rows (snd p))) new_batch)
          = Ok max_clen /\
        t_data (y_batch b)
          = map (fun p => [map to_f32 (fst p)
                           ++ replicate (max_olen - length (fst p))
                                (to_f32 zero)]) new_batch /\
        t_data (c_batch b)
          = map (fun p =>
                   transpose_rows d
                     (map (map to_f32)
                        (a_rows (snd p)
                         ++ replicate (max_clen - length (a_rows (snd p)))
                              (replicate (a_dim (snd p)) zero))))
                new_batch) /\
  (forall self (x0 x1 : audio) (c0 c1 : features) g,
      hop_size self = 1 ->
      1500 <= batch_max_steps self ->
      length x0 = 1000%nat -> length x1 = 1500%nat ->
      ready_for_upsampling x0 c0 (hop_size self) 0 ->
      ready_for_upsampling x1 c1 (hop_size self) 0 ->
      a_dim c0 = a_dim c1 ->
      exists b g' row0 row1,
        __call__ self [(x0, c0); (x1, c1)] g = Ok (b, g') /\
        t_shape (y_batch b) = (2%nat, 1%nat, 1500%nat) /\
        t_data (y_batch b) = [[row0]; [row1]] /\
        length row0 = 1500%nat /\ length row1 = 1500%nat /\
        (forall j, (j < 1000)%nat -> row0 !! j = to_f32 <$> x0 !! j) /\
        (forall j, (1000 <= j < 1500)%nat -> row0 !! j = Some (to_f32 zero)) /\
        row1 = map to_f32 x1 /\
        input_lengths b = [1000%nat; 1500%nat]).
Proof.
  split.
  - intros self batch g b g' H.
    destruct (__call___inv _ _ _ _ _ H) as (nb & g1 & Ha).
    rewrite (__call___spec _ _ _ _ _ Ha) in H.
    destruct nb as [|p0 rest]; [discriminate|]. cbv zeta in H.
    destruct (forallb _ rest); [|discriminate].
    destruct (randn _ g1) as [[z g2]|]; [|discriminate].
    injection H as <- <-.
    exists (p0 :: rest), g1. do 3 eexists.
    split; [exact Ha|]. split; [reflexivity|]. split; [reflexivity|].
    split; reflexivity.
  - intros self x0 x1 c0 c1 g Hh Hb L0 L1 R0 R1 Hd.
    assert (Ha : adjust_batch self [(x0, c0); (x1, c1)] g
                 = Ok ([(x0, c0); (x1, c1)], g)).
    { apply adjust_batch_pass_through.
      repeat constructor; simpl; auto; unfold len; lia. }
    rewrite (__call___spec _ _ _ _ _ Ha). cbv zeta.
    cbn [forallb map foldr fst snd length].
    rewrite Hd, Nat.eqb_refl. cbn [andb].
    rewrite L0, L1.
    replace (Nat.max 1500 1000) with 1500%nat by lia.
    destruct (randn_spec (2%nat, 1%nat, 1500%nat) g) as (z & g' & -> & _).
    do 4 eexists. split; [reflexivity|]. cbn [y_batch t_shape t_data input_lengths].
    split; [reflexivity|]. split; [reflexivity|].
    replace (1500 - 1500)%nat with 0%nat by lia.
    replace (1500 - 1000)%nat with 500%nat by lia.
    split; [rewrite length_app, length_map, length_replicate; lia|].
    split; [rewrite length_app, length_map, length_replicate; lia|].
    split; [|split; [|split]].
    + intros j Hj. rewrite padded_row_lookup, L0.
      case_decide; [done|lia].
    + intros j Hj. rewrite padded_row_lookup, L0.
      case_decide; [lia|]. case_decide; [done|lia].
    + cbn [replicate]. by rewrite app_nil_r.
    + reflexivity.
Qed.

(** ** One iteration of the training loop *)

Ltac split_updates :=
  repeat match goal with
         | |- context [let '(_, _) := ?e in _] => destruct e
         end.

(** The generator update leaves the discriminator's parameters,
    optimizer and scheduler alone (its gradient buffers are written by
    the backward pass) and makes the generator calls. *)
Lemma generator_update_frame cfg st b :
  let st1 := fst (generator_update cfg st b) in
  theta_d st1 = theta_d st /\
  optimizer_d st1 = optimizer_d st /\
  schedular_d st1 = schedular_d st /\
  global_steps st1 = global_steps st /\
  calls st1 = calls st ++ generator_calls cfg.
Proof. unfold generator_update. split_updates. simpl. auto. Qed.

Lemma discriminator_update_frame cfg st y y_ :
  let st1 := discriminator_update cfg st y y_ in
  theta_g st1 = theta_g st /\
  optimizer_g st1 = optimizer_g st /\
  schedular_g st1 = schedular_g st /\
  global_steps st1 = global_steps st /\
  calls st1 = calls st ++ discriminator_calls cfg.
Proof. unfold discriminator_update. split_updates. simpl. auto. Qed.

Lemma train_step_unfold cfg st b :
  train_step cfg st b =
  if global_steps st >? discriminator_start_iter cfg
  then discriminator_update cfg (fst (generator_update cfg st b))
         (y_batch b) (snd (generator_update cfg st b))
  else fst (generator_update cfg st b).
Proof.
  unfold train_step.
  destruct (generator_update_frame cfg st b) as (_ & _ & _ & Hg & _).
  destruct (generator_update cfg st b) as [st1 y_]. simpl in *.
  by rewrite Hg.
Qed.

Lemma train_step_calls cfg st b :
  global_steps (train_step cfg st b) = global_steps st /\
  calls (train_step cfg st b)
    = calls st ++ iteration_calls cfg (global_steps st).
Proof.
  rewrite train_step_unfold. unfold iteration_calls.
  destruct (generator_update_frame cfg st b) as (_ & _ & _ & Hg & Hc).
  destruct (global_steps st >? discriminator_start_iter cfg).
  - destruct (discriminator_update_frame cfg
                (fst (generator_update cfg st b)) (y_batch b)
                (snd (generator_update cfg st b))) as (_ & _ & _ & Hg' & Hc').
    rewrite Hg', Hc', Hc, Hg. by rewrite app_assoc.
  - by rewrite Hg, Hc, app_nil_r.
Qed.

Lemma no_discriminator_call_in_generator_calls cfg :
  existsb is_discriminator_call (generator_calls cfg) = false.
Proof. unfold generator_calls. by destruct (positive (grad_norm cfg)). Qed.

Lemma discriminator_calls_step cfg :
  existsb is_discriminator_call (discriminator_calls cfg) = true.
Proof. reflexivity. Qed.

(** C3: an iteration made while [global_steps <= discriminator_start_iter]
    makes no discriminator call and leaves the discriminator's
    parameters, optimizer state and scheduler state as they were; an
    iteration made while [global_steps > discriminator_start_iter] runs
    the discriminator update after the generator update.  So the
    discriminator phase runs exactly when
    [global_steps > discriminator_start_iter]. *)
Theorem discriminator_gate cfg st b :
  let st' := train_step cfg st b in
  let new_calls := drop (length (calls st)) (calls st') in
  calls st' = calls st ++ new_calls /\
  (global_steps st <= discriminator_start_iter cfg ->
   theta_d st' = theta_d st /\
   optimizer_d st' = optimizer_d st /\
   schedular_d st' = schedular_d st /\
   new_calls = generator_calls cfg) /\
  (global_steps st > discriminator_start_iter cfg ->
   st' = discriminator_update cfg (fst (generator_update cfg st b))
           (y_batch b) (snd (generator_update cfg st b)) /\
   new_calls = generator_calls cfg ++ discriminator_calls cfg) /\
  (existsb is_discriminator_call new_calls = true
   <-> global_steps st > discriminator_start_iter cfg).
Proof.
  intros st' new_calls.
  destruct (train_step_calls cfg st b) as [Hg Hc].
  assert (Hn : new_calls = iteration_calls cfg (global_steps st)).
  { subst new_calls st'. by rewrite Hc, drop_app_length. }
  split; [subst st'; by rewrite Hc, Hn|].
  pose proof (train_step_unfold cfg st b) as Hu.
  unfold iteration_calls in Hn.
  destruct (generator_update_frame cfg st b) as (Ht & Ho & Hs & _ & _).
  destruct (Z.gtb_spec (global_steps st) (discriminator_start_iter cfg)).
  - split; [lia|]. split; [by intros _|].
    rewrite Hn, existsb_app, discriminator_calls_step, orb_true_r.
    split; [lia|done].
  - rewrite app_nil_r in Hn. split.
    + intros _. subst st'. rewrite Hu. auto.
    + split; [lia|].
      rewrite Hn, no_discriminator_call_in_generator_calls.
      split; [discriminate|lia].
Qed.

(** ** Passes and the loop *)

Lemma discriminator_untouched_refl st : discriminator_untouched st st.
Proof.
  repeat split. exists []. by rewrite app_nil_r.
Qed.

Lemma discriminator_untouched_trans st1 st2 st3 :
  discriminator_untouched st1 st2 -> discriminator_untouched st2 st3 ->
  discriminator_untouched st1 st3.
Proof.
  intros (Ht & Ho & Hs & n1 & Hc1 & Hn1) (Ht' & Ho' & Hs' & n2 & Hc2 & Hn2).
  repeat split; try congruence.
  exists (n1 ++ n2). split; [by rewrite Hc2, Hc1, app_assoc|].
  by rewrite existsb_app, Hn1, Hn2.
Qed.

Lemma discriminator_untouched_increment st :
  discriminator_untouched st (increment st).
Proof.
  repeat split. exists []. simpl. by rewrite app_nil_r.
Qed.

Lemma train_step_untouched cfg st b :
  global_steps st <= discriminator_start_iter cfg ->
  discriminator_untouched st (train_step cfg st b).
Proof.
  intros Hle.
  destruct (train_step_calls cfg st b) as [_ Hc].
  rewrite train_step_unfold in *. unfold iteration_calls in Hc.
  destruct (generator_update_frame cfg st b) as (Ht & Ho & Hs & _ & _).
  destruct (Z.gtb_spec (global_steps st) (discriminator_start_iter cfg));
    [lia|].
  repeat split; auto. eexists. split; [exact Hc|].
  rewrite app_nil_r. apply no_discriminator_call_in_generator_calls.
Qed.

(** What a pass does, however it ends: the counter is not touched, and
    every iteration made adds the calls of an iteration; a pass that is
    not aborted makes one iteration per batch of the loader. *)
Lemma train_pass_spec self cfg batches st g st' g' ex :
  train_pass self cfg batches st g = (st', g', ex) ->
  global_steps st' = global_steps st /\
  (exists m, (m <= length batches)%nat /\
             calls st' = calls st
                         ++ concat (replicate m
                                      (iteration_calls cfg (global_steps st))) /\
             (ex = Finished -> m = length batches)) /\
  (global_steps st <= discriminator_start_iter cfg ->
   discriminator_untouched st st').
Proof.
  revert st g. induction batches as [|b batches IH]; intros st g.
  - simpl. intros [= <- <- <-]. split; [done|]. split.
    + exists 0%nat. simpl. by rewrite app_nil_r.
    + intros _. apply discriminator_untouched_refl.
  - rewrite train_pass_cons.
    destruct (__call__ self b g) as [[bt g1]|e].
    + intros H. apply IH in H as (Hg & (m & Hm & Hc & Hf) & Hu).
      destruct (train_step_calls cfg st bt) as [Hg1 Hc1].
      rewrite Hg1 in *. split; [exact Hg|]. split.
      * exists (S m). split; [simpl; lia|]. split.
        -- rewrite Hc, Hc1. simpl. by rewrite <- app_assoc.
        -- intros He. simpl. f_equal. auto.
      * intros Hle. eapply discriminator_untouched_trans;
          [by apply train_step_untouched|auto].
    + intros [= <- <- <-]. split; [done|]. split.
      * exists 0%nat. simpl. rewrite app_nil_r.
        split; [lia|]. split; [done|discriminate].
      * intros _. apply discriminator_untouched_refl.
Qed.

Lemma train_loop_unfold fuel self cfg st g :
  train_loop (S fuel) self cfg st g =
  match train_pass self cfg (data_loader (global_steps st)) st g with
  | (st1, g1, Aborted e) => Some (st1, g1, Aborted e)
  | (st1, g1, Finished) =>
      if global_steps st1 + 1 >=? iters cfg
      then Some (increment st1, g1, Finished)
      else train_loop fuel self cfg (increment st1) g1
  end.
Proof. reflexivity. Qed.

Lemma run_calls_S cfg k n :
  run_calls cfg k (S n) = pass_calls cfg k ++ run_calls cfg (k + 1) n.
Proof.
  unfold run_calls. rewrite <- cons_seq, <- seq_shift.
  cbn [map concat]. rewrite map_map, Z.add_0_r. do 2 f_equal.
  apply map_ext. intros i. f_equal. lia.
Qed.

(** The loop leaves after finitely many passes: [n] passes are enough
    whenever [max 1 (iters - global_steps) <= n], and more fuel does not
    change the outcome.  A run that is not aborted ends with
    [global_steps = max (global_steps + 1) iters], having made exactly
    the calls of that many passes. *)
Lemma train_loop_total self cfg (n : nat) :
  forall st g,
    Z.max 1 (iters cfg - global_steps st) <= Z.of_nat n ->
    exists st' g' ex,
      (forall fuel, (n <= fuel)%nat ->
                    train_loop fuel self cfg st g = Some (st', g', ex)) /\
      match ex with
      | Finished =>
          global_steps st' = Z.max (global_steps st + 1) (iters cfg) /\
          calls st' = calls st
                      ++ run_calls cfg (global_steps st)
                           (Z.to_nat (Z.max 1 (iters cfg - global_steps st)))
      | Aborted _ =>
          global_steps st <= global_steps st'
            < Z.max (global_steps st + 1) (iters cfg)
      end.
Proof.
  induction n as [|n IH]; intros st g Hn; [lia|].
  destruct (train_pass self cfg (data_loader (global_steps st)) st g)
    as [[st1 g1] ex1] eqn:Hp.
  destruct (train_pass_spec _ _ _ _ _ _ _ _ Hp) as (Hg & (m & _ & Hc & Hm) & _).
  destruct ex1 as [|e].
  - specialize (Hm eq_refl). subst m.
    destruct (Z.geb_spec (global_steps st1 + 1) (iters cfg)) as [Hge|Hlt].
    + exists (increment st1), g1, Finished. split.
      * intros [|fuel] Hf; [lia|]. rewrite train_loop_unfold, Hp.
        destruct (Z.geb_spec (global_steps st1 + 1) (iters cfg)); [done|lia].
      * simpl. rewrite Hg. split; [lia|]. rewrite Hc.
        replace (Z.to_nat (Z.max 1 (iters cfg - global_steps st))) with 1%nat
          by lia.
        rewrite run_calls_S. unfold run_calls at 1. simpl.
        by rewrite app_nil_r.
    + destruct (IH (increment st1) g1) as (st' & g' & ex & Hrun & Hex).
      { simpl. lia. }
      exists st', g', ex. split.
      * intros [|fuel] Hf; [lia|]. rewrite train_loop_unfold, Hp.
        destruct (Z.geb_spec (global_steps st1 + 1) (iters cfg)); [lia|].
        apply Hrun. lia.
      * simpl in Hex. rewrite Hg in *. destruct ex as [|e].
        -- destruct Hex as [Hgs Hcs]. split; [lia|]. rewrite Hcs, Hc.
           replace (Z.to_nat (Z.max 1 (iters cfg - global_steps st)))
             with (S (Z.to_nat (Z.max 1 (iters cfg - (global_steps st + 1)))))
             by lia.
           rewrite run_calls_S. unfold pass_calls.
           by rewrite <- app_assoc.
        -- lia.
  - exists st1, g1, (Aborted e). split.
    + intros [|fuel] Hf; [lia|]. by rewrite train_loop_unfold, Hp.
    + lia.
Qed.

(** While the counter cannot pass [discriminator_start_iter] before
    the budget is used up, no pass of the run touches the
    discriminator. *)
Lemma train_loop_untouched self cfg (fuel : nat) :
  forall st g st' g' ex,
    global_steps st <= discriminator_start_iter cfg ->
    iters cfg <= discriminator_start_iter cfg + 1 ->
    train_loop fuel self cfg st g = Some (st', g', ex) ->
    discriminator_untouched st st'.
Proof.
  induction fuel as [|fuel IH]; intros st g st' g' ex Hle Hi; [discriminate|].
  rewrite train_loop_unfold.
  destruct (train_pass self cfg (data_loader (global_steps st)) st g)
    as [[st1 g1] ex1] eqn:Hp.
  destruct (train_pass_spec _ _ _ _ _ _ _ _ Hp) as (Hg & _ & Hu).
  specialize (Hu Hle). destruct ex1 as [|e].
  - destruct (Z.geb_spec (global_steps st1 + 1) (iters cfg)).
    + intros [= <- <- <-]. eapply discriminator_untouched_trans;
        [exact Hu|apply discriminator_untouched_increment].
    + intros Hrun. apply IH in Hrun; [|simpl; lia|exact Hi].
      eapply discriminator_untouched_trans; [exact Hu|].
      eapply discriminator_untouched_trans;
        [apply discriminator_untouched_increment|exact Hrun].
  - by intros [= <- <- <-].
Qed.

(** C5: the counter starts at 0; neither an iteration nor a whole pass
    changes it, and the loop adds one after each pass that was not
    aborted and leaves exactly when the new value has reached [iters]
    (the test is made after the pass, so one pass is always made).
    For every budget the loop, and [main] with it, returns after at
    most [max 1 iters] passes: an unaborted run ends with
    [global_steps = max 1 iters], having made exactly the calls of that
    many passes. *)
Theorem global_steps_state_machine self cfg tg gg og sg td gd od sd g :
  let st0 := initial_state tg gg og sg td gd od sd in
  global_steps st0 = 0 /\
  (forall st b, global_steps (train_step cfg st b) = global_steps st) /\
  (forall batches st g1 st' g' ex,
      train_pass self cfg batches st g1 = (st', g', ex) ->
      global_steps st' = global_steps st) /\
  (forall fuel st g1,
      train_loop (S fuel) self cfg st g1 =
      match train_pass self cfg (data_loader (global_steps st)) st g1 with
      | (st1, g2, Aborted e) => Some (st1, g2, Aborted e)
      | (st1, g2, Finished) =>
          if global_steps st + 1 >=? iters cfg
          then Some (increment st1, g2, Finished)
          else train_loop fuel self cfg (increment st1) g2
      end) /\
  (forall st, global_steps (increment st) = global_steps st + 1) /\
  (forall batch_max_steps0 hop_size0 aux0,
      exists r, forall fuel,
        (Z.to_nat (Z.max 1 (iters cfg)) <= fuel)%nat ->
        main fuel batch_max_steps0 hop_size0 aux0 cfg st0 g = Some r) /\
  exists st' g' ex,
    (forall fuel, (Z.to_nat (Z.max 1 (iters cfg)) <= fuel)%nat ->
                  train_loop fuel self cfg st0 g = Some (st', g', ex)) /\
    match ex with
    | Finished =>
        global_steps st' = Z.max 1 (iters cfg) /\
        calls st' = run_calls cfg 0 (Z.to_nat (Z.max 1 (iters cfg)))
    | Aborted _ => 0 <= global_steps st' < Z.max 1 (iters cfg)
    end.
Proof.
  intros st0. split; [reflexivity|].
  split; [intros st b; apply train_step_calls|].
  split; [intros batches st g1 st' g' ex H;
          by apply train_pass_spec in H as [H _]|].
  split.
  { intros fuel st g1. rewrite train_loop_unfold.
    destruct (train_pass self cfg (data_loader (global_steps st)) st g1)
      as [[st1 g2] ex1] eqn:Hp.
    apply train_pass_spec in Hp as [Hg _]. by rewrite Hg. }
  split; [reflexivity|].
  split.
  { intros b h w. unfold main. destruct (__init__ b h w) as [collate_fn|e].
    - destruct (train_loop_total collate_fn cfg
                  (Z.to_nat (Z.max 1 (iters cfg))) st0 g)
        as (st' & g' & ex & Hrun & _); [simpl; lia|]. eauto.
    - eauto. }
  destruct (train_loop_total self cfg (Z.to_nat (Z.max 1 (iters cfg))) st0 g)
    as (st' & g' & ex & Hrun & Hex).
  { simpl. lia. }
  exists st', g', ex. split; [exact Hrun|].
  simpl in Hex. rewrite Z.sub_0_r in Hex. exact Hex.
Qed.

(** More fuel does not change the outcome of a run. *)
Lemma train_loop_mono self cfg (fuel : nat) :
  forall fuel' st g r,
    (fuel <= fuel')%nat ->
    train_loop fuel self cfg st g = Some r ->
    train_loop fuel' self cfg st g = Some r.
Proof.
  induction fuel as [|fuel IH]; intros fuel' st g r Hf; [discriminate|].
  destruct fuel' as [|fuel']; [lia|]. rewrite !train_loop_unfold.
  destruct (train_pass self cfg (data_loader (global_steps st)) st g)
    as [[st1 g1] [|e]]; [|done].
  destruct (global_steps st1 + 1 >=? iters cfg); [done|].
  apply IH. lia.
Qed.

(** The calls of an unaborted run that starts with the counter at 0. *)
Lemma train_loop_calls self cfg fuel st g st' g' :
  global_steps st = 0 ->
  train_loop fuel self cfg st g = Some (st', g', Finished) ->
  global_steps st' = Z.max 1 (iters cfg) /\
  calls st' = calls st ++ run_calls cfg 0 (Z.to_nat (global_steps st')).
Proof.
  intros H0 Hrun.
  destruct (train_loop_total self cfg (Z.to_nat (Z.max 1 (iters cfg))) st g)
    as (st2 & g2 & ex2 & Hrun2 & Hex); [lia|].
  pose proof (train_loop_mono self cfg fuel
                (Nat.max fuel (Z.to_nat (Z.max 1 (iters cfg)))) st g _
                ltac:(lia) Hrun) as H1.
  rewrite Hrun2 in H1 by lia. injection H1 as -> -> ->.
  rewrite H0 in Hex. simpl in Hex. rewrite Z.sub_0_r in Hex.
  destruct Hex as [Hg Hc]. by rewrite Hg.
Qed.

(** C4 (amended): with [discriminator_start_iter = 0] no iteration of
    the first pass ([global_steps = 0]) touches the discriminator, and
    every iteration of every later pass runs the discriminator update
    after the generator update; an unaborted run makes exactly these
    calls, pass after pass.  With a non-negative
    [discriminator_start_iter] that is at least [iters - 1] (so, with
    any value above a non-negative budget), no run, aborted or not,
    touches the discriminator. *)
Theorem discriminator_start_scenarios self cfg :
  (discriminator_start_iter cfg = 0 ->
   (forall st b, global_steps st = 0 ->
                 discriminator_untouched st (train_step cfg st b)) /\
   (forall st b, 1 <= global_steps st ->
                 drop (length (calls st)) (calls (train_step cfg st b))
                 = generator_calls cfg ++ discriminator_calls cfg) /\
   (forall k, iteration_calls cfg k
              = generator_calls cfg
                ++ (if 1 <=? k then discriminator_calls cfg else [])) /\
   (forall fuel st0 g st' g',
       global_steps st0 = 0 ->
       train_loop fuel self cfg st0 g = Some (st', g', Finished) ->
       calls st' = calls st0
                   ++ run_calls cfg 0 (Z.to_nat (global_steps st')))) /\
  (0 <= discriminator_start_iter cfg ->
   iters cfg <= discriminator_start_iter cfg + 1 ->
   forall fuel st0 g st' g' ex,
     global_steps st0 = 0 ->
     train_loop fuel self cfg st0 g = Some (st', g', ex) ->
     discriminator_untouched st0 st').
Proof.
  split.
  - intros Hd. split; [|split; [|split]].
    + intros st b H0. apply train_step_untouched. lia.
    + intros st b H1. destruct (train_step_calls cfg st b) as [_ Hc].
      rewrite Hc, drop_app_length. unfold iteration_calls.
      destruct (Z.gtb_spec (global_steps st) (discriminator_start_iter cfg));
        [done|lia].
    + intros k. unfold iteration_calls. rewrite Hd.
      destruct (Z.gtb_spec k 0), (Z.leb_spec 1 k); try lia; done.
    + intros fuel st0 g st' g' H0 Hrun.
      by apply (train_loop_calls self cfg fuel st0 g st' g' H0) in Hrun as [_ ?].
  - intros Hd Hi fuel st0 g st' g' ex H0 Hrun.
    eapply train_loop_untouched; [|exact Hi|exact Hrun]. lia.
Qed.

(** ** Further properties of the collater *)

(** X1: the constructor fails exactly on a zero hop size, with
    [ZeroDivisionError]; its assertion (line 33) never fails. *)
Theorem __init___raises (b h w : Z) :
  (h = 0 -> __init__ b h w = Raise ZeroDivisionError) /\
  (h <> 0 -> exists self, __init__ b h w = Ok self) /\
  (forall e, __init__ b h w = Raise e -> h = 0 /\ e = ZeroDivisionError).
Proof.
  rewrite __init___spec. destruct (Z.eqb_spec h 0) as [Hh|Hh].
  - split; [done|]. split; [done|]. by intros e [= <-].
  - split; [done|]. split; [eauto|]. discriminate.
Qed.

(** X2: the lengths a constructed collater holds: the samples are the
    frames times the hop size; the stored length is the multiple of the
    hop size next to the configured one, below it for a positive hop
    size and above it for a negative one; it is the configured length
    exactly when the hop size divides that. *)
Theorem __init___stored_lengths (b h w : Z) self :
  __init__ b h w = Ok self ->
  hop_size self = h /\ aux_context_window self = w /\
  batch_max_steps self = batch_max_frames self * hop_size self /\
  (0 < h -> b - h < batch_max_steps self <= b) /\
  (h < 0 -> b <= batch_max_steps self < b - h) /\
  (batch_max_steps self = b <-> b mod h = 0).
Proof.
  rewrite __init___spec. destruct (Z.eqb_spec h 0) as [Hh|Hh]; [discriminate|].
  intros [= <-]. simpl. pose proof (Z.div_mod b h Hh) as Hdm.
  split; [done|]. split; [done|]. split; [lia|]. split; [|split].
  - intros Hp. pose proof (Z.mod_pos_bound b h Hp). lia.
  - intros Hn. pose proof (Z.mod_neg_bound b h Hn). lia.
  - lia.
Qed.

(** X3: normalising is idempotent: a collater built from the lengths
    another one holds is that collater. *)
Theorem __init___idempotent (b h w : Z) self :
  __init__ b h w = Ok self ->
  __init__ (batch_max_steps self) (hop_size self) (aux_context_window self)
  = Ok self.
Proof.
  rewrite !__init___spec. destruct (Z.eqb_spec h 0) as [Hh|Hh]; [discriminate|].
  intros [= <-]. simpl. destruct (Z.eqb_spec h 0); [done|].
  replace (h * (b / h) / h) with (b / h); [done|].
  by rewrite (Z.mul_comm h (b / h)), Z.div_mul.
Qed.

(** X4: with a positive hop size and non-negative lengths the assertion
    on the crop (line 66) never fails.  The adjustment raises in two
    cases only: [AssertionError] when the raw pair is not aligned, and
    [ValueError] when it is aligned, longer than the target and leaves
    no offset to draw. *)
Theorem adjust_raises (b h w : Z) self x c g e :
  0 < h -> 0 <= b -> 0 <= w ->
  __init__ b h w = Ok self ->
  adjust self (x, c) g = Raise e <->
  (e = AssertionError /\ ~ ready_for_upsampling x c h 0) \/
  (e = ValueError /\ ready_for_upsampling x c h 0 /\
   len x > batch_max_steps self /\
   len2 c - batch_max_frames self - w <= w).
Proof.
  intros Hh Hb Hw Hi. rewrite __init___spec in Hi.
  destruct (Z.eqb_spec h 0); [lia|]. injection Hi as <-.
  set (self := {| batch_max_steps := h * (b / h); batch_max_frames := b / h;
                  hop_size := h; aux_context_window := w |}).
  assert (Hq : 0 <= b / h) by (apply Z.div_pos; lia).
  destruct (decide (ready_for_upsampling x c h 0)) as [H0|H0].
  - destruct (Z.le_gt_cases (len x) (batch_max_steps self)) as [Hle|Hgt].
    + rewrite (adjust_pass_through self x c g H0 Hle). simpl in *.
      split; [discriminate|]. intros [[_ ?]|(_ & _ & ? & _)]; [done|lia].
    + destruct (Z.le_gt_cases (len2 c - batch_max_frames self - w) w)
        as [He|Hne].
      * assert (Ha : adjust self (x, c) g = Raise ValueError).
        { unfold adjust, bindM, lift.
          apply _assert_ready_for_upsampling_spec in H0. simpl hop_size.
          rewrite H0.
          destruct (Z.gtb_spec (len x) (batch_max_steps self)); [|lia].
          by rewrite randint_empty. }
        rewrite Ha. simpl in *. split.
        -- intros [= <-]. right. repeat split; auto; lia.
        -- intros [[_ ?]|(-> & _)]; done.
      * destruct (adjust_crop self x c g H0 ltac:(lia)
                    ltac:(subst self; simpl in *; lia))
          as (s & g' & Hs & Ha).
        subst self.
        cbn [hop_size aux_context_window batch_max_steps batch_max_frames]
          in *.
        rewrite Ha. case_decide as Hd.
        -- simpl in *. split; [discriminate|].
           intros [[_ ?]|(_ & _ & _ & ?)]; [done|lia].
        -- exfalso. apply Hd. unfold ready_for_upsampling in *.
           replace (h * (b / h)) with (b / h * h) by lia.
           destruct (crop_lengths x c h (b / h) w s) as [-> ->]; try lia.
  - assert (Ha : adjust self (x, c) g = Raise AssertionError).
    { unfold adjust, bindM, lift.
      by rewrite _assert_ready_for_upsampling_raise. }
    rewrite Ha. split.
    + intros [= <-]. by left.
    + intros [[-> _]|(_ & ? & _)]; done.
Qed.

(** The lengths of a crop, for a positive hop size and non-negative
    lengths. *)
Lemma adjust_crop_lengths (b h w : Z) self x c g x' c' g' :
  0 < h -> 0 <= b -> 0 <= w ->
  __init__ b h w = Ok self ->
  adjust self (x, c) g = Ok ((x', c'), g') ->
  len x > batch_max_steps self ->
  len x' = batch_max_steps self /\
  len2 c' = batch_max_frames self + 2 * w.
Proof.
  intros Hh Hb Hw Hi Ha Hgt. rewrite __init___spec in Hi.
  apply adjust_inv in Ha as [H0 Ha].
  destruct (Z.eqb_spec h 0); [lia|]. injection Hi as <-. simpl in *.
  assert (0 <= b / h) by (apply Z.div_pos; lia).
  destruct Ha as [(Hle & _)|(_ & s & Hs & -> & -> & _)]; [lia|].
  unfold ready_for_upsampling in H0.
  replace (h * (b / h)) with (b / h * h) by lia.
  replace (h * (b / h)) with (b / h * h) in Hgt by lia.
  apply crop_lengths; auto; lia.
Qed.

(** X5: a crop is a window of the pair: the frames of the crop are the
    frames from [s - w] on, and the samples of its [i]-th frame after
    the context are the samples of the frame [s + i] of the pair, for
    the drawn offset [s]. *)
Theorem crop_is_a_window (b h w : Z) self x c g x' c' g' :
  0 < h -> 0 <= b -> 0 <= w ->
  __init__ b h w = Ok self ->
  adjust self (x, c) g = Ok ((x', c'), g') ->
  len x > batch_max_steps self ->
  exists s,
    w <= s < len2 c - batch_max_frames self - w /\
    a_dim c' = a_dim c /\
    (forall i, 0 <= i < batch_max_frames self + 2 * w ->
               is_Some (a_rows c' !! Z.to_nat i) /\
               a_rows c' !! Z.to_nat i = a_rows c !! Z.to_nat (s - w + i)) /\
    (forall i k, 0 <= i < batch_max_frames self -> 0 <= k < h ->
                 is_Some (x' !! Z.to_nat (i * h + k)) /\
                 x' !! Z.to_nat (i * h + k) = x !! Z.to_nat ((s + i) * h + k)).
Proof.
  intros Hh Hb Hw Hi Ha Hgt. rewrite __init___spec in Hi.
  apply adjust_inv in Ha as [H0 Ha].
  destruct (Z.eqb_spec h 0); [lia|]. injection Hi as <-. simpl in *.
  destruct Ha as [(Hle & _)|(_ & s & Hs & -> & -> & _)]; [lia|].
  assert (Hq : 0 <= b / h) by (apply Z.div_pos; lia).
  unfold ready_for_upsampling in H0.
  exists s. split; [exact Hs|]. split; [reflexivity|].
  unfold slice2, slice, len2, len in *. simpl.
  rewrite !slice_index_inside by nia. split.
  - intros i Hi. assert (Hl : a_rows c !! Z.to_nat (s - w + i)
                              = take (Z.to_nat (s + w + b / h - (s - w)))
                                  (drop (Z.to_nat (s - w)) (a_rows c))
                                !! Z.to_nat i).
    { rewrite lookup_take_lt, lookup_drop by lia. f_equal. lia. }
    rewrite <- Hl. split; [|done].
    apply lookup_lt_is_Some. lia.
  - intros i k Hi Hk.
    assert (Hl : x !! Z.to_nat ((s + i) * h + k)
                 = take (Z.to_nat (s * h + h * (b / h) - s * h))
                     (drop (Z.to_nat (s * h)) x) !! Z.to_nat (i * h + k)).
    { rewrite lookup_take_lt, lookup_drop by nia. f_equal. nia. }
    rewrite <- Hl. split; [|done].
    apply lookup_lt_is_Some. nia.
Qed.

(** X6: adjusting is not idempotent on crops: the crop of a pair has
    exactly the target length, so a second adjustment does not crop it
    but checks it as a raw pair, which fails with [AssertionError]
    unless there is no context window. *)
Theorem readjust_crop (b h w : Z) self x c g x' c' g' g2 :
  0 < h -> 0 <= b -> 0 <= w ->
  __init__ b h w = Ok self ->
  adjust self (x, c) g = Ok ((x', c'), g') ->
  len x > batch_max_steps self ->
  adjust self (x', c') g2
  = if decide (w = 0) then Ok ((x', c'), g2) else Raise AssertionError.
Proof.
  intros Hh Hb Hw Hi Ha Hgt.
  destruct (adjust_crop_lengths b h w self x c g x' c' g'
              Hh Hb Hw Hi Ha Hgt) as (Hx & Hc).
  rewrite __init___spec in Hi.
  destruct (Z.eqb_spec h 0); [lia|]. injection Hi as <-.
  cbn [hop_size aux_context_window batch_max_steps batch_max_frames] in *.
  case_decide as Hw0.
  - apply adjust_pass_through; simpl; [|lia].
    unfold ready_for_upsampling. lia.
  - unfold adjust, bindM, lift. simpl.
    rewrite _assert_ready_for_upsampling_raise; [done|].
    unfold ready_for_upsampling. rewrite Hx, Hc. nia.
Qed.

(** X7: padding raises [ValueError] when one of the two pad widths,
    both in the range of numpy's index type, is negative.  Whenever it
    returns, no pad width was negative, the result has [max_len] rows of
    the same dimension, the array is found again by slicing at [b_pad],
    and every row outside that slice holds the constant. *)
Theorem _pad_2darray_outcome (x : ndarray2 sample) (max_len b_pad : Z)
    (v : sample) :
  (- 2 ^ 63 <= b_pad < 2 ^ 63 ->
   - 2 ^ 63 <= max_len - len2 x - b_pad < 2 ^ 63 ->
   b_pad < 0 \/ max_len < len2 x + b_pad ->
   _pad_2darray x max_len b_pad v = Raise ValueError) /\
  (forall y,
      _pad_2darray x max_len b_pad v = Ok y ->
      0 <= b_pad /\ len2 x + b_pad <= max_len /\
      a_dim y = a_dim x /\ len2 y = max_len /\
      slice2 y b_pad (b_pad + len2 x) = x /\
      (forall i row,
          a_rows y !! i = Some row ->
          Z.of_nat i < b_pad \/ b_pad + len2 x <= Z.of_nat i ->
          row = replicate (a_dim x) v)).
Proof.
  unfold _pad_2darray. split.
  - intros _ _ H.
    destruct (Z.ltb_spec b_pad 0), (Z.ltb_spec (max_len - len2 x - b_pad) 0);
      simpl; try done; lia.
  - intros y.
    destruct (Z.ltb_spec b_pad 0), (Z.ltb_spec (max_len - len2 x - b_pad) 0);
      simpl; try discriminate.
    intros [= <-]. split; [lia|]. split; [lia|]. simpl. split; [done|].
    destruct x as [d rows]. unfold len2, len, slice2, slice in *. simpl in *.
    split; [|split].
    + rewrite !length_app, !length_replicate. lia.
    + f_equal. rewrite !length_app, !length_replicate.
      rewrite !slice_index_inside by lia.
      rewrite drop_app_length' by (rewrite length_replicate; lia).
      apply take_app_length'. lia.
    + intros i row Hi Hout.
      destruct Hout as [Hlt|Hge].
      * rewrite lookup_app_l in Hi by (rewrite length_replicate; lia).
        by apply lookup_replicate_1 in Hi as [-> _].
      * rewrite lookup_app_r in Hi by (rewrite length_replicate; lia).
        rewrite lookup_app_r in Hi by (rewrite length_replicate; lia).
        by apply lookup_replicate_1 in Hi as [-> _].
Qed.

Lemma adjust_error_kinds self b g e :
  adjust self b g = Raise e -> e = AssertionError \/ e = ValueError.
Proof.
  destruct b as [x c]. unfold adjust, bindM, lift, ret, randint,
    _assert_ready_for_upsampling, assert_.
  repeat match goal with
         | |- context [if ?t then _ else _] => destruct t
         end; intros [= <-]; auto.
Qed.

Lemma adjust_batch_error_kinds self batch g e :
  adjust_batch self batch g = Raise e -> e = AssertionError \/ e = ValueError.
Proof.
  revert g. induction batch as [|b batch IH]; intros g; [discriminate|].
  cbn [adjust_batch]. unfold bindM at 1.
  destruct (adjust self b g) as [[b' g1]|e1] eqn:E.
  - unfold bindM, ret.
    destruct (adjust_batch self batch g1) as [[nb g2]|e2] eqn:E2;
      [discriminate|].
    intros [= <-]. eauto.
  - intros [= <-]. by apply adjust_error_kinds in E.
Qed.

(** The adjusted pair at a position of the batch. *)
Lemma adjust_batch_lookup_fwd self batch g new_batch g' i b :
  adjust_batch self batch g = Ok (new_batch, g') ->
  batch !! i = Some b ->
  exists b' g1 g2, new_batch !! i = Some b' /\ adjust self b g1 = Ok (b', g2).
Proof.
  intros Ha Hb.
  destruct (lookup_lt_is_Some_2 new_batch i) as [b' Hb'].
  { rewrite (adjust_batch_length _ _ _ _ _ Ha). by apply lookup_lt_Some in Hb. }
  destruct (adjust_batch_lookup _ _ _ _ _ _ _ Ha Hb')
    as (b0 & g1 & g2 & Hb0 & Hadj).
  rewrite Hb in Hb0. injection Hb0 as <-. eauto.
Qed.

(** X8: [__call__] returns exactly on the batches that are not empty,
    whose pairs are all adjusted and whose features have one dimension.
    It raises nothing but [AssertionError] and [ValueError]: the
    exception of the first pair that is not adjusted, or [ValueError]
    for an empty batch and for features of different dimensions; the
    padding itself never fails. *)
Theorem __call___outcome self batch g :
  ((exists bt g', __call__ self batch g = Ok (bt, g')) <->
   batch <> [] /\
   (exists new_batch g1, adjust_batch self batch g = Ok (new_batch, g1)) /\
   (exists d, Forall (fun p => a_dim (snd p) = d) batch)) /\
  (forall e,
      __call__ self batch g = Raise e ->
      (e = AssertionError \/ e = ValueError) /\
      (adjust_batch self batch g = Raise e \/
       e = ValueError /\
       (batch = [] \/
        ~ exists d, Forall (fun p : audio * features => a_dim (snd p) = d)
                           batch))).
Proof.
  assert (Hfwd : (exists bt g', __call__ self batch g = Ok (bt, g')) ->
                 batch <> [] /\
                 (exists nb g1, adjust_batch self batch g = Ok (nb, g1)) /\
                 (exists d, Forall (fun p : audio * features =>
                                      a_dim (snd p) = d) batch)).
  { intros (bt & g' & H).
    destruct (__call___inv _ _ _ _ _ H) as (nb & g1 & Ha).
    pose proof (adjust_batch_length _ _ _ _ _ Ha) as Hlen.
    rewrite (__call___spec _ _ _ _ _ Ha) in H.
    destruct nb as [|p0 rest]; [discriminate|]. cbv zeta in H.
    destruct (forallb _ rest) eqn:Hf; [|discriminate].
    split; [intros ->; discriminate|]. split; [eauto|].
    exists (a_dim (snd p0)). apply Forall_lookup. intros i b Hb.
    destruct (adjust_batch_lookup_fwd _ _ _ _ _ _ _ Ha Hb)
      as (b' & ga & gb & Hb' & Hadj).
    rewrite <- (adjust_a_dim _ _ _ _ _ Hadj).
    destruct i as [|i]; simpl in Hb'; [by injection Hb' as <-|].
    apply list_elem_of_lookup_2, list_elem_of_In in Hb'.
    rewrite forallb_forall in Hf. symmetry. by apply Nat.eqb_eq, Hf. }
  split.
  - split; [exact Hfwd|].
    intros (Hne & (nb & g1 & Ha) & d & Hd).
    by apply (__call___succeeds _ _ _ _ _ d Ha).
  - intros e H.
    destruct (adjust_batch self batch g) as [[nb g1]|e1] eqn:Ha.
    + assert (He : e = ValueError).
      { rewrite (__call___spec _ _ _ _ _ Ha) in H.
        destruct nb as [|p0 rest]; [by injection H|]. cbv zeta in H.
        destruct (forallb _ rest); [|by injection H].
        destruct (randn_spec (length (p0 :: rest), 1%nat,
                    foldr Nat.max (length (fst p0))
                          (map (fun b => length (fst b)) rest)) g1)
          as (z & g' & Hz & _).
        rewrite Hz in H. discriminate. }
      split; [auto|]. right. split; [exact He|].
      destruct batch as [|p batch]; [by left|]. right. intros [d Hd].
      destruct (__call___succeeds _ _ _ _ _ d Ha ltac:(done) Hd)
        as (bt & g' & Hok).
      congruence.
    + pose proof (__call___raise _ _ _ _ Ha) as Hr.
      rewrite Hr in H. injection H as <-.
      split; [by apply adjust_batch_error_kinds in Ha|by left].
Qed.

Lemma __init___stored_lengths_aux (b h w : Z) self :
  __init__ b h w = Ok self ->
  hop_size self = h /\
  batch_max_steps self = batch_max_frames self * h /\
  (0 < h -> 0 <= b -> 0 <= batch_max_frames self).
Proof.
  rewrite __init___spec. destruct (Z.eqb_spec h 0) as [Hh|Hh]; [discriminate|].
  intros [= <-]. simpl. split; [done|]. split; [lia|].
  intros. apply Z.div_pos; lia.
Qed.

(** What an adjusted pair looks like, for a positive hop size and
    non-negative lengths: a pair that fits is returned as it is, aligned
    without context; a longer one has exactly the target lengths. *)
Lemma adjust_lengths (b h w : Z) self (p p' : audio * features) g g' :
  0 < h -> 0 <= b -> 0 <= w ->
  __init__ b h w = Ok self ->
  adjust self p g = Ok (p', g') ->
  (len (fst p) <= batch_max_steps self /\ p' = p /\
   len (fst p) = len2 (snd p) * h) \/
  (len (fst p) > batch_max_steps self /\
   len (fst p') = batch_max_steps self /\
   len2 (snd p') = batch_max_frames self + 2 * w).
Proof.
  intros Hh Hb Hw Hi Ha. destruct p as [x c], p' as [x' c'].
  destruct (Z.le_gt_cases (len x) (batch_max_steps self)) as [Hle|Hgt].
  - left. destruct (__init___stored_lengths_aux b h w self Hi) as (Hhop & _).
    apply adjust_inv in Ha as [H0 [(_ & -> & -> & _)|(? & _)]]; [|lia].
    simpl. unfold ready_for_upsampling in H0. rewrite Hhop in H0.
    split; [done|]. split; [done|lia].
  - right. split; [simpl; lia|]. simpl.
    apply (adjust_crop_lengths b h w self x c g x' c' g'); auto. lia.
Qed.

Lemma max__bound (l : list nat) (m : nat) (B : Z) :
  max_ l = Ok m -> Forall (fun n => Z.of_nat n <= B) l -> Z.of_nat m <= B.
Proof.
  intros Hm Hl. apply max__spec in Hm as [_ Hin].
  by apply (proj1 (Forall_forall _ _) Hl).
Qed.

Lemma max__reached (l : list nat) (m : nat) (B : Z) :
  max_ l = Ok m -> Forall (fun n => Z.of_nat n <= B) l ->
  Exists (fun n => Z.of_nat n = B) l -> Z.of_nat m = B.
Proof.
  intros Hm Hl He. pose proof (max__bound l m B Hm Hl).
  apply max__spec in Hm as [Hge _].
  apply Exists_exists in He as (n & Hn & <-).
  apply (proj1 (Forall_forall _ _) Hge) in Hn. lia.
Qed.

(** The longest audio is the longest feature matrix times the hop size
    when every pair is aligned without context. *)
Lemma foldr_max_scale (h : Z) (p0 : audio * features)
    (l : list (audio * features)) :
  0 < h ->
  Forall (fun p => len (fst p) = len2 (snd p) * h) (p0 :: l) ->
  Z.of_nat (foldr Nat.max (length (fst p0)) (map (fun b => length (fst b)) l))
  = Z.of_nat (foldr Nat.max (length (a_rows (snd p0)))
                    (map (fun b => length (a_rows (snd b))) l)) * h.
Proof.
  intros Hh H. apply Forall_cons in H as [H0 Hl]. unfold len2, len in *.
  induction Hl as [|p l Hp _ IH]; simpl; [exact H0|].
  destruct (Nat.max_spec (length (fst p))
              (foldr Nat.max (length (fst p0))
                     (map (fun b => length (fst b)) l))) as [[? ->]|[? ->]],
           (Nat.max_spec (length (a_rows (snd p)))
              (foldr Nat.max (length (a_rows (snd p0)))
                     (map (fun b => length (a_rows (snd b))) l)))
             as [[? ->]|[? ->]]; nia.
Qed.

(** X9: for a positive hop size and non-negative lengths a collated
    batch is never longer than the target: at most [batch_max_steps]
    samples and [batch_max_frames + 2 * aux_context_window] frames.  If
    some pair was cropped both bounds are reached, so the batch is
    aligned for the configured window; if none was, the batch is aligned
    without context frames. *)
Theorem collated_lengths_bounded (b h w : Z) self batch g bt g' :
  0 < h -> 0 <= b -> 0 <= w ->
  __init__ b h w = Ok self ->
  __call__ self batch g = Ok (bt, g') ->
  exists t tc d,
    t_shape (y_batch bt) = (length batch, 1%nat, t) /\
    t_shape (c_batch bt) = (length batch, d, tc) /\
    Z.of_nat t <= batch_max_steps self /\
    Z.of_nat tc <= batch_max_frames self + 2 * w /\
    (Exists (fun p => len (fst p) > batch_max_steps self) batch ->
     Z.of_nat t = batch_max_steps self /\
     Z.of_nat tc = batch_max_frames self + 2 * w) /\
    (Forall (fun p => len (fst p) <= batch_max_steps self) batch ->
     Z.of_nat t = Z.of_nat tc * h).
Proof.
  intros Hh Hb Hw Hi H.
  destruct (__call___inv _ _ _ _ _ H) as (nb & g1 & Ha).
  pose proof (adjust_batch_length _ _ _ _ _ Ha) as Hlen.
  destruct (__init___stored_lengths_aux b h w self Hi) as (Hhop & Hbms & Hq).
  assert (Hnb : Forall (fun p' : audio * features =>
                          len (fst p') <= batch_max_steps self /\
                          len2 (snd p') <= batch_max_frames self + 2 * w)
                       nb).
  { apply Forall_lookup. intros i p' Hp'.
    destruct (adjust_batch_lookup _ _ _ _ _ _ _ Ha Hp')
      as (p & ga & gb & _ & Hadj).
    destruct (adjust_lengths b h w self p p' ga gb Hh Hb Hw Hi Hadj)
      as [(Hle & -> & Hal)|(_ & -> & ->)]; [|lia].
    split; [exact Hle|]. nia. }
  rewrite (__call___spec _ _ _ _ _ Ha) in H.
  destruct nb as [|p0 rest]; [discriminate|]. cbv zeta in H.
  destruct (forallb _ rest); [|discriminate].
  destruct (randn _ g1) as [[z g2]|]; [|discriminate].
  injection H as <- <-. cbn [y_batch c_batch t_shape]. rewrite <- Hlen.
  set (mx := foldr Nat.max (length (fst p0))
               (map (fun b => length (fst b)) rest)).
  set (mc := foldr Nat.max (length (a_rows (snd p0)))
               (map (fun b => length (a_rows (snd b))) rest)).
  assert (E1 : max_ (map (fun b : audio * features => length (fst b))
                         (p0 :: rest)) = Ok mx) by reflexivity.
  assert (E2 : max_ (map (fun b : audio * features => length (a_rows (snd b)))
                         (p0 :: rest)) = Ok mc) by reflexivity.
  assert (Bx : Forall (fun n => Z.of_nat n <= batch_max_steps self)
                 (map (fun b : audio * features => length (fst b))
                      (p0 :: rest))).
  { apply Forall_map. eapply Forall_impl; [exact Hnb|]. by intros p' [? _]. }
  assert (Bc : Forall (fun n => Z.of_nat n <= batch_max_frames self + 2 * w)
                 (map (fun b : audio * features => length (a_rows (snd b)))
                      (p0 :: rest))).
  { apply Forall_map. eapply Forall_impl; [exact Hnb|]. by intros p' [_ ?]. }
  exists mx, mc, (a_dim (snd p0)).
  split; [done|]. split; [done|].
  split; [by apply (max__bound _ _ _ E1)|].
  split; [by apply (max__bound _ _ _ E2)|]. split.
  - intros He. apply Exists_exists in He as (p & Hp & Hgt).
    apply list_elem_of_lookup in Hp as [i Hp].
    destruct (adjust_batch_lookup_fwd _ _ _ _ _ _ _ Ha Hp)
      as (p' & ga & gb & Hp' & Hadj).
    destruct (adjust_lengths b h w self p p' ga gb Hh Hb Hw Hi Hadj)
      as [(Hle & _)|(_ & Hx' & Hc')]; [lia|].
    apply list_elem_of_lookup_2 in Hp'. split.
    + apply (max__reached _ _ _ E1 Bx). apply Exists_exists.
      exists (length (fst p')). split; [|exact Hx'].
      apply list_elem_of_In, in_map_iff. exists p'.
      split; [done|by apply list_elem_of_In].
    + apply (max__reached _ _ _ E2 Bc). apply Exists_exists.
      exists (length (a_rows (snd p'))). split; [|exact Hc'].
      apply list_elem_of_In, in_map_iff. exists p'.
      split; [done|by apply list_elem_of_In].
  - intros Hall. apply foldr_max_scale; [exact Hh|].
    apply Forall_lookup. intros i p' Hp'.
    destruct (adjust_batch_lookup _ _ _ _ _ _ _ Ha Hp')
      as (p & ga & gb & Hp & Hadj).
    destruct (adjust_lengths b h w self p p' ga gb Hh Hb Hw Hi Hadj)
      as [(_ & -> & Hal)|(Hgt & _)]; [exact Hal|].
    apply (Forall_lookup_1 _ _ _ _ Hall) in Hp. lia.
Qed.

Lemma lookup_map {A B} (f : A -> B) (l : list A) (i : nat) :
  map f l !! i = f <$> l !! i.
Proof.
  revert i. induction l as [|a l IH]; intros [|i]; simpl; auto.
Qed.

Lemma length_transpose_rows {A} (m : nat) (rows : list (list A)) :
  Forall (fun r => length r = m) rows ->
  length (transpose_rows m rows) = m.
Proof.
  unfold transpose_rows. induction 1 as [|r rows Hr _ IH]; simpl.
  - apply length_replicate.
  - rewrite length_zip_with, IH, Hr. lia.
Qed.

(** The column [j] of a matrix is the row [j] of its transpose. *)
Lemma transpose_rows_lookup {A} (m : nat) (rows : list (list A)) (j : nat) :
  Forall (fun r => length r = m) rows -> (j < m)%nat ->
  exists col,
    transpose_rows m rows !! j = Some col /\
    length col = length rows /\
    forall i r, rows !! i = Some r -> col !! i = r !! j.
Proof.
  intros H Hj. unfold transpose_rows.
  induction H as [|r rows Hr _ (col & Hc & Hl & Hi)]; simpl.
  - exists []. split; [by apply lookup_replicate_2|]. split; [done|].
    intros i r. by rewrite lookup_nil.
  - destruct (lookup_lt_is_Some_2 r j ltac:(lia)) as [a Ha].
    exists (a :: col). split; [|split].
    + rewrite lookup_zip_with, Ha, Hc. reflexivity.
    + simpl. by rewrite Hl.
    + intros [|i] r'; simpl; [by intros [= <-]|]. apply Hi.
Qed.

(** The adjustment keeps every property of the frames. *)
Lemma adjust_frames self (b b' : audio * features) g g'
    (P : list sample -> Prop) :
  adjust self b g = Ok (b', g') ->
  Forall P (a_rows (snd b)) -> Forall P (a_rows (snd b')).
Proof.
  destruct b as [x c], b' as [x' c']. intros H Hc.
  apply adjust_inv in H
    as [_ [(_ & -> & -> & _)|(_ & s & _ & -> & -> & _)]]; [done|].
  simpl. unfold slice. by apply Forall_take, Forall_drop.
Qed.

(** X10: the conditioning tensor is channel-major, of shape
    [(B, D, T')]: [B] is the size of the batch, [D] the feature
    dimension, which all items of the batch and all adjusted items
    share, and [T'] the largest number of frames of an adjusted item.
    For every item and every feature [j] below [D] it holds one row of
    length [T'], whose entry [t] is the feature [j] of the frame [t] of
    the adjusted item, converted to single precision, and zero from the
    item's last frame on.  The features are matrices: every frame has
    the dimension of its array. *)
Theorem c_batch_layout self batch g bt g' :
  Forall (fun p => Forall (fun r => length r = a_dim (snd p))
                          (a_rows (snd p))) batch ->
  __call__ self batch g = Ok (bt, g') ->
  exists new_batch g1 d tc,
    adjust_batch self batch g = Ok (new_batch, g1) /\
    t_shape (c_batch bt) = (length batch, d, tc) /\
    length (t_data (c_batch bt)) = length batch /\
    Forall (fun p => a_dim (snd p) = d) batch /\
    Forall (fun p => a_dim (snd p) = d) new_batch /\
    max_ (map (fun p => length (a_rows (snd p))) new_batch) = Ok tc /\
    forall i p,
      new_batch !! i = Some p ->
      exists m,
        t_data (c_batch bt) !! i = Some m /\ length m = d /\
        forall j, (j < d)%nat ->
          exists row,
            m !! j = Some row /\ length row = tc /\
            (forall t fr, a_rows (snd p) !! t = Some fr ->
                          row !! t = to_f32 <$> fr !! j) /\
            (forall t, (length (a_rows (snd p)) <= t < tc)%nat ->
                       row !! t = Some (to_f32 zero)).
Proof.
  intros Hrect H.
  destruct (__call___inv _ _ _ _ _ H) as (nb & g1 & Ha).
  pose proof (adjust_batch_length _ _ _ _ _ Ha) as Hlen.
  assert (Hr : Forall (fun p : audio * features =>
                         Forall (fun r => length r = a_dim (snd p))
                                (a_rows (snd p))) nb).
  { apply Forall_lookup. intros i p' Hp'.
    destruct (adjust_batch_lookup _ _ _ _ _ _ _ Ha Hp')
      as (p & ga & gb & Hp & Hadj).
    rewrite (adjust_a_dim _ _ _ _ _ Hadj).
    apply (adjust_frames _ _ _ _ _ _ Hadj).
    by apply (Forall_lookup_1 _ _ _ _ Hrect Hp). }
  rewrite (__call___spec _ _ _ _ _ Ha) in H.
  destruct nb as [|p0 rest]; [discriminate|]. cbv zeta in H.
  destruct (forallb _ rest) eqn:Hf; [|discriminate].
  destruct (randn _ g1) as [[z g2]|]; [|discriminate].
  set (d := a_dim (snd p0)) in *.
  set (mc := foldr Nat.max (length (a_rows (snd p0)))
               (map (fun b => length (a_rows (snd b))) rest)) in *.
  assert (Hs : t_shape (c_batch bt) = (length (p0 :: rest), d, mc))
    by (by injection H as <- _).
  assert (Ht : t_data (c_batch bt)
               = map (fun b : audio * features =>
                        transpose_rows d
                          (map (map to_f32) (a_rows (padded mc (snd b)))))
                     (p0 :: rest))
    by (by injection H as <- _).
  clear H. rewrite Hs, Ht, <- Hlen. clear Hs Ht.
  assert (Hd : Forall (fun p : audio * features => a_dim (snd p) = d)
                      (p0 :: rest)).
  { constructor; [done|]. apply Forall_forall. intros q Hq.
    rewrite forallb_forall in Hf. symmetry.
    by apply Nat.eqb_eq, Hf, list_elem_of_In. }
  assert (Hc : Forall (fun p : audio * features =>
                         (length (a_rows (snd p)) <= mc)%nat) (p0 :: rest)).
  { pose proof (foldr_max_ge (length (a_rows (snd p0)))
                  (map (fun b => length (a_rows (snd b))) rest)) as Hm.
    change (Forall (fun k => (k <= mc)%nat)
              (map (fun b : audio * features => length (a_rows (snd b)))
                   (p0 :: rest))) in Hm.
    by apply Forall_map in Hm. }
  exists (p0 :: rest), g1, d, mc. split; [exact Ha|]. split; [done|].
  split; [by rewrite length_map|].
  split.
  { apply Forall_lookup. intros i b Hb.
    destruct (adjust_batch_lookup_fwd _ _ _ _ _ _ _ Ha Hb)
      as (b' & ga & gb & Hb' & Hadj).
    rewrite <- (adjust_a_dim _ _ _ _ _ Hadj).
    by apply (Forall_lookup_1 _ _ _ _ Hd Hb'). }
  split; [exact Hd|]. split; [reflexivity|].
  intros i p Hp. rewrite lookup_map, Hp. simpl.
  pose proof (Forall_lookup_1 _ _ _ _ Hr Hp) as Hrp.
  pose proof (Forall_lookup_1 _ _ _ _ Hd Hp) as Hdp.
  pose proof (Forall_lookup_1 _ _ _ _ Hc Hp) as Hcp.
  cbv beta in Hrp, Hdp, Hcp. rewrite Hdp in Hrp.
  assert (Hrows : Forall (fun r : list f32 => length r = d)
                    (map (map to_f32) (a_rows (padded mc (snd p))))).
  { apply Forall_map. unfold padded. simpl. apply Forall_app. split.
    - eapply Forall_impl; [exact Hrp|]. intros r Hl. cbv beta.
      by rewrite length_map.
    - apply Forall_replicate. cbv beta.
      by rewrite length_map, length_replicate. }
  eexists. split; [reflexivity|].
  split; [by apply length_transpose_rows|].
  intros j Hj.
  destruct (transpose_rows_lookup d _ j Hrows Hj) as (row & Hrow & Hl & Hi).
  exists row. split; [exact Hrow|]. split.
  - by rewrite Hl, length_map, length_padded.
  - unfold padded in Hi. simpl in Hi. split.
    + intros t fr Hfr. rewrite (Hi t (map to_f32 fr)).
      * apply lookup_map.
      * rewrite lookup_map, lookup_app_l by (by apply lookup_lt_Some in Hfr).
        by rewrite Hfr.
    + intros t Ht.
      rewrite (Hi t (map to_f32 (replicate (a_dim (snd p)) zero))).
      * rewrite lookup_map, lookup_replicate_2 by lia. done.
      * rewrite lookup_map, lookup_app_r by lia.
        rewrite lookup_replicate_2 by lia. done.
Qed.

(** ** Further properties of the loop *)

Lemma count_calls_app e l1 l2 :
  count_calls e (l1 ++ l2) = (count_calls e l1 + count_calls e l2)%nat.
Proof. apply count_occ_app. Qed.

Lemma count_calls_concat_map {A} e (f : A -> list call) (l : list A) :
  count_calls e (concat (map f l))
  = sum_list_with (fun a => count_calls e (f a)) l.
Proof.
  induction l as [|a l IH]; simpl; [done|].
  by rewrite count_calls_app, IH.
Qed.

(** The calls of one iteration, counted. *)
Lemma count_calls_iteration cfg k e :
  count_calls e (iteration_calls cfg k) =
  match e with
  | G_zero_grad | G_backward | G_step | G_schedular_step => 1%nat
  | G_clip_grad_norm => if positive (grad_norm cfg) then 1%nat else 0%nat
  | D_zero_grad | D_backward | D_step | D_schedular_step =>
      if k >? discriminator_start_iter cfg then 1%nat else 0%nat
  | D_clip_grad_norm =>
      if (k >? discriminator_start_iter cfg) && positive (grad_norm cfg)
      then 1%nat else 0%nat
  end.
Proof.
  unfold iteration_calls, generator_calls, discriminator_calls.
  destruct (k >? discriminator_start_iter cfg), (positive (grad_norm cfg)),
    e; reflexivity.
Qed.

(** The history of a run, however it ends, grows by whole iterations,
    each made with a value the counter had during the run. *)
Lemma train_loop_trace self cfg (fuel : nat) :
  forall st g st' g' ex,
    train_loop fuel self cfg st g = Some (st', g', ex) ->
    global_steps st <= global_steps st' /\
    exists ks,
      calls st' = calls st ++ concat (map (iteration_calls cfg) ks) /\
      Forall (fun k => global_steps st <= k <= global_steps st') ks.
Proof.
  induction fuel as [|fuel IH]; intros st g st' g' ex; [discriminate|].
  rewrite train_loop_unfold.
  destruct (train_pass self cfg (data_loader (global_steps st)) st g)
    as [[st1 g1] ex1] eqn:Hp.
  destruct (train_pass_spec _ _ _ _ _ _ _ _ Hp) as (Hg & (m & _ & Hc & _) & _).
  assert (Hc1 : calls st1
                = calls st
                  ++ concat (map (iteration_calls cfg)
                               (replicate m (global_steps st)))).
  { rewrite Hc. f_equal. f_equal. clear.
    induction m as [|m IH]; simpl; [done|]. by rewrite IH. }
  assert (Hk : forall hi, global_steps st <= hi ->
                          Forall (fun k => global_steps st <= k <= hi)
                                 (replicate m (global_steps st))).
  { intros hi Hhi. apply Forall_replicate. lia. }
  destruct ex1 as [|e].
  - destruct (Z.geb_spec (global_steps st1 + 1) (iters cfg)).
    + intros [= <- <- <-]. simpl. split; [lia|].
      eexists. split; [exact Hc1|]. apply Hk. lia.
    + intros Hrun. apply IH in Hrun as (Hmono & ks & Hcs & Hks).
      simpl in *. split; [lia|].
      exists (replicate m (global_steps st) ++ ks). split.
      * by rewrite Hcs, Hc1, map_app, concat_app, app_assoc.
      * apply Forall_app. split; [apply Hk; lia|].
        eapply Forall_impl; [exact Hks|]. intros k ?. cbv beta in *. lia.
  - intros [= <- <- <-]. split; [lia|].
    eexists. split; [exact Hc1|]. apply Hk. lia.
Qed.

Lemma sum_list_with_ext {A} (f f' : A -> nat) (l : list A) :
  (forall a, f a = f' a) -> sum_list_with f l = sum_list_with f' l.
Proof.
  intros H. induction l as [|a l IH]; cbn [sum_list_with]; [done|].
  by rewrite H, IH.
Qed.

Lemma sum_list_with_one {A} (l : list A) :
  sum_list_with (fun _ => 1%nat) l = length l.
Proof. induction l as [|a l IH]; simpl; [done|]. by rewrite IH. Qed.

Lemma sum_list_with_zero {A} (l : list A) :
  sum_list_with (fun _ => 0%nat) l = 0%nat.
Proof. induction l as [|a l IH]; simpl; done. Qed.

(** The discriminator updates among the iterations made with the
    counter values [ks]. *)
Lemma count_calls_iterations cfg ks e :
  count_calls e (concat (map (iteration_calls cfg) ks)) =
  let n_g := length ks in
  let n_d :=
    sum_list_with
      (fun k => if k >? discriminator_start_iter cfg then 1 else 0)%nat ks in
  match e with
  | G_zero_grad | G_backward | G_step | G_schedular_step => n_g
  | G_clip_grad_norm => if positive (grad_norm cfg) then n_g else 0%nat
  | D_zero_grad | D_backward | D_step | D_schedular_step => n_d
  | D_clip_grad_norm => if positive (grad_norm cfg) then n_d else 0%nat
  end.
Proof.
  rewrite count_calls_concat_map.
  rewrite (sum_list_with_ext _ _ ks (fun k => count_calls_iteration cfg k e)).
  cbv zeta.
  destruct e, (positive (grad_norm cfg));
    rewrite ?sum_list_with_one, ?sum_list_with_zero; try reflexivity;
    cbv zeta.
  - apply sum_list_with_ext. intros k.
    by destruct (k >? discriminator_start_iter cfg).
  - transitivity (sum_list_with (fun _ : Z => 0%nat) ks);
      [|apply sum_list_with_zero].
    apply sum_list_with_ext. intros k.
    by destruct (k >? discriminator_start_iter cfg).
Qed.

(** X11: a run, finished or aborted, makes whole updates only: in the
    calls it adds, zeroing, backward pass, step and scheduler step occur
    equally often for the generator, and equally often for the
    discriminator, which is never stepped more often than the
    generator.  An exception of the collater falls between two
    iterations. *)
Theorem run_makes_whole_updates self cfg fuel st g st' g' ex :
  train_loop fuel self cfg st g = Some (st', g', ex) ->
  exists new_calls n_g n_d,
    calls st' = calls st ++ new_calls /\
    (n_d <= n_g)%nat /\
    count_calls G_zero_grad new_calls = n_g /\
    count_calls G_backward new_calls = n_g /\
    count_calls G_step new_calls = n_g /\
    count_calls G_schedular_step new_calls = n_g /\
    count_calls D_zero_grad new_calls = n_d /\
    count_calls D_backward new_calls = n_d /\
    count_calls D_step new_calls = n_d /\
    count_calls D_schedular_step new_calls = n_d.
Proof.
  intros H. apply train_loop_trace in H as (_ & ks & Hc & _).
  exists (concat (map (iteration_calls cfg) ks)),
    (length ks),
    (sum_list_with
       (fun k => if k >? discriminator_start_iter cfg then 1 else 0)%nat ks).
  split; [exact Hc|]. split.
  - clear. induction ks as [|k ks IH]; simpl; [lia|].
    destruct (k >? discriminator_start_iter cfg); lia.
  - rewrite !count_calls_iterations. cbv zeta. repeat split.
Qed.

(** X12: gradient clipping follows [grad_norm] throughout a run: if it
    is not positive no gradient is ever clipped; if it is, the
    gradients of a network are clipped once for each of its steps. *)
Theorem clipping_follows_grad_norm self cfg fuel st g st' g' ex :
  train_loop fuel self cfg st g = Some (st', g', ex) ->
  exists new_calls,
    calls st' = calls st ++ new_calls /\
    count_calls G_clip_grad_norm new_calls
    = (if positive (grad_norm cfg) then count_calls G_step new_calls
       else 0%nat) /\
    count_calls D_clip_grad_norm new_calls
    = (if positive (grad_norm cfg) then count_calls D_step new_calls
       else 0%nat).
Proof.
  intros H. apply train_loop_trace in H as (_ & ks & Hc & _).
  exists (concat (map (iteration_calls cfg) ks)). split; [exact Hc|].
  rewrite !count_calls_iterations. cbv zeta. split; reflexivity.
Qed.

Lemma count_calls_pass cfg k e :
  count_calls e (pass_calls cfg k)
  = (length (data_loader k) * count_calls e (iteration_calls cfg k))%nat.
Proof.
  unfold pass_calls. induction (length (data_loader k)) as [|n IH];
    cbn [replicate concat]; [done|].
  rewrite count_calls_app, IH. lia.
Qed.

(** X13: in an unaborted run entered with the counter at 0, the counter
    ends at the number of passes made, [max 1 iters], while the
    generator and its learning-rate scheduler are stepped once for every
    batch the loader drew in those passes, and the discriminator once
    for every batch of the passes made with
    [global_steps > discriminator_start_iter]. *)
Theorem finished_run_step_counts self cfg fuel st g st' g' :
  global_steps st = 0 ->
  train_loop fuel self cfg st g = Some (st', g', Finished) ->
  exists new_calls (n : nat),
    calls st' = calls st ++ new_calls /\
    global_steps st' = Z.of_nat n /\
    Z.of_nat n = Z.max 1 (iters cfg) /\
    count_calls G_step new_calls
    = sum_list_with (fun i => length (data_loader (Z.of_nat i))) (seq 0 n) /\
    count_calls G_schedular_step new_calls
    = sum_list_with (fun i => length (data_loader (Z.of_nat i))) (seq 0 n) /\
    count_calls D_step new_calls
    = sum_list_with
        (fun i => if Z.of_nat i >? discriminator_start_iter cfg
                  then length (data_loader (Z.of_nat i)) else 0%nat)
        (seq 0 n) /\
    count_calls D_schedular_step new_calls = count_calls D_step new_calls.
Proof.
  intros H0 Hrun.
  destruct (train_loop_calls self cfg fuel st g st' g' H0 Hrun) as [Hg Hc].
  exists (run_calls cfg 0 (Z.to_nat (global_steps st'))),
    (Z.to_nat (global_steps st')).
  split; [exact Hc|]. split; [lia|]. split; [lia|].
  unfold run_calls. rewrite !count_calls_concat_map.
  repeat split; apply sum_list_with_ext; intros i;
    rewrite !count_calls_pass, !count_calls_iteration, Z.add_0_l;
    try lia.
  destruct (Z.of_nat i >? discriminator_start_iter cfg); lia.
Qed.

(** An aborted pass stopped before its last batch. *)
Lemma train_pass_aborted self cfg batches st g st' g' e :
  train_pass self cfg batches st g = (st', g', Aborted e) ->
  exists m, (m < length batches)%nat /\
            calls st' = calls st
                        ++ concat (replicate m
                                     (iteration_calls cfg (global_steps st))).
Proof.
  revert st g. induction batches as [|b batches IH]; intros st g.
  - discriminate.
  - rewrite train_pass_cons.
    destruct (__call__ self b g) as [[bt g1]|e1].
    + intros H. apply IH in H as (m & Hm & Hc).
      destruct (train_step_calls cfg st bt) as [Hg1 Hc1].
      rewrite Hg1, Hc1 in Hc. exists (S m). split; [simpl; lia|].
      rewrite Hc. simpl. by rewrite <- app_assoc.
    + intros [= <- <- <-]. exists 0%nat. simpl.
      split; [lia|by rewrite app_nil_r].
Qed.

(** X14: the budget is tested after the pass only.  A loop entered with
    [iters <= global_steps + 1], in particular with a budget of zero or
    less, still makes one whole pass over the loader, and exactly one:
    it leaves with the counter one higher, or aborted in that pass. *)
Theorem exhausted_budget_makes_one_pass self cfg fuel st g :
  iters cfg <= global_steps st + 1 ->
  exists st' g' ex,
    train_loop (S fuel) self cfg st g = Some (st', g', ex) /\
    match ex with
    | Finished =>
        global_steps st' = global_steps st + 1 /\
        calls st' = calls st ++ pass_calls cfg (global_steps st)
    | Aborted _ =>
        global_steps st' = global_steps st /\
        exists m, (m < length (data_loader (global_steps st)))%nat /\
                  calls st' = calls st
                              ++ concat (replicate m
                                           (iteration_calls cfg
                                              (global_steps st)))
    end.
Proof.
  intros Hi. rewrite train_loop_unfold.
  destruct (train_pass self cfg (data_loader (global_steps st)) st g)
    as [[st1 g1] ex1] eqn:Hp.
  destruct (train_pass_spec _ _ _ _ _ _ _ _ Hp) as (Hg & (m & Hm & Hc & Hf) & _).
  destruct ex1 as [|e].
  - destruct (Z.geb_spec (global_steps st1 + 1) (iters cfg)); [|lia].
    do 3 eexists. split; [reflexivity|]. simpl. split; [lia|].
    by rewrite Hc, (Hf eq_refl).
  - do 3 eexists. split; [reflexivity|]. split; [exact Hg|].
    by apply (train_pass_aborted _ _ _ _ _ _ _ _ Hp).
Qed.

End Model.

(** ** Concrete runs

    The statements above at explicit inputs.  Samples and single
    precision values are integers, converted by the identity. *)

Arguments Build_ndarray2 {A} a_dim a_rows.
Arguments a_dim {A} _.
Arguments a_rows {A} _.
Arguments Build_rng {f32} np_random torch_random.
Arguments np_random {f32} _ _.
Arguments torch_random {f32} _ _.
Arguments ready_for_upsampling {sample} x c hop_size0 context_window.
Arguments adjust {sample f32} self b _.
Arguments adjust_batch {sample f32} self batch _.
Arguments bindM {f32 A B} m k _.
Arguments __call__ {sample} zero {f32} to_f32 self batch _.
Arguments z_batch {f32} _.
Arguments c_batch {f32} _.
Arguments y_batch {f32} _.
Arguments input_lengths {f32} _.
Arguments t_shape {A} _.
Arguments t_data {A} _.

(** A generator state whose draws are all [0]. *)
Abbreviation g0 :=
  ({| np_random := fun _ => 0; torch_random := fun _ => 0 |} : rng Z).

(** Twelve samples with their six frames of one feature (hop size 2). *)
Abbreviation x12 := ([1; 2; 3; 4; 5; 6; 7; 8; 9; 10; 11; 12] : list Z).
Abbreviation c6 :=
  ({| a_dim := 1; a_rows := [[1]; [2]; [3]; [4]; [5]; [6]] |} : ndarray2 Z).

(** The collater of [batch_max_steps=5, hop_size=2, aux_context_window=1]:
    the length is normalised to 4, that is 2 frames. *)
Abbreviation collater_4_2_1 :=
  {| batch_max_steps := 4; batch_max_frames := 2; hop_size := 2;
     aux_context_window := 1 |}.

Example __init___5_2_1 : __init__ 5 2 1 = Ok collater_4_2_1.
Proof. reflexivity. Qed.

(** The pair is cropped at frame [1]: samples 3..6, frames 1..4. *)
Example adjust_crop_12 :
  adjust collater_4_2_1 (x12, c6) g0
  = Ok (([3; 4; 5; 6], {| a_dim := 1; a_rows := [[1]; [2]; [3]; [4]] |}), g0).
Proof. reflexivity. Qed.

(** Witness for C1 (amended), on a pair that is cropped. *)
Lemma adjust_alignment_witness :
  adjust collater_4_2_1 (x12, c6) g0
  = Ok (([3; 4; 5; 6], {| a_dim := 1; a_rows := [[1]; [2]; [3]; [4]] |}), g0)
  /\ ready_for_upsampling (sample := Z) [3; 4; 5; 6]
       {| a_dim := 1; a_rows := [[1]; [2]; [3]; [4]] |} 2 1.
Proof.
  assert (H : adjust collater_4_2_1 (x12, c6) g0
              = Ok (([3; 4; 5; 6],
                     {| a_dim := 1; a_rows := [[1]; [2]; [3]; [4]] |}), g0))
    by reflexivity.
  split; [exact H|].
  destruct (adjust_alignment _ _ _ _ _ _ _ _ _ H) as (_ & Hc & _).
  apply Hc. reflexivity.
Defined.

(** Counterexample to C1 as stated: with [aux_context_window = 2] a pair
    of three samples and three frames (hop size 1) is aligned for window
    0 and passes through unchanged, so the output is not aligned for the
    configured window: [3 <> (3 - 2 * 2) * 1]. *)
Lemma pass_through_not_aligned_for_window :
  __init__ 10 1 2
  = Ok {| batch_max_steps := 10; batch_max_frames := 10; hop_size := 1;
          aux_context_window := 2 |} /\
  ready_for_upsampling (sample := Z) [1; 2; 3]
    {| a_dim := 1; a_rows := [[1]; [2]; [3]] |} 1 0 /\
  adjust {| batch_max_steps := 10; batch_max_frames := 10; hop_size := 1;
            aux_context_window := 2 |}
    ([1; 2; 3], {| a_dim := 1; a_rows := [[1]; [2]; [3]] |}) g0
  = Ok (([1; 2; 3], {| a_dim := 1; a_rows := [[1]; [2]; [3]] |}), g0) /\
  ~ ready_for_upsampling (sample := Z) [1; 2; 3]
      {| a_dim := 1; a_rows := [[1]; [2]; [3]] |} 1 2.
Proof.
  split; [reflexivity|]. split; [reflexivity|]. split; [reflexivity|].
  vm_compute. discriminate.
Qed.

(** Witness for C2: the configured length 5 is stored as 4, and the crop
    of the twelve samples has length 4, with 2 + 2 * 1 frames. *)
Lemma crop_has_normalised_length_witness :
  exists self,
    __init__ 5 2 1 = Ok self /\
    batch_max_steps self = 2 * (5 / 2) /\
    batch_max_steps self mod 2 = 0 /\
    batch_max_steps self <= 5 < batch_max_steps self + 2 /\
    batch_max_frames self = 5 / 2 /\
    len [3; 4; 5; 6] = batch_max_steps self /\
    len2 {| a_dim := 1; a_rows := [[1]; [2]; [3]; [4]] |}
    = batch_max_frames self + 2 * 1.
Proof.
  destruct (crop_has_normalised_length Z Z 5 2 1 ltac:(lia))
    as (self & Hi & _ & _ & Hs & Hm & Hb & Hf & Hcrop).
  exists self. split; [exact Hi|]. split; [exact Hs|]. split; [exact Hm|].
  split; [exact Hb|]. split; [exact Hf|].
  assert (Hself : Ok collater_4_2_1 = Ok self) by exact Hi.
  injection Hself as <-.
  exact (Hcrop ltac:(lia) ltac:(lia) x12 c6 g0 _ _ g0 eq_refl eq_refl).
Defined.

(** Witness for C6: four samples and two frames fit the length 4. *)
Lemma adjust_short_pair_witness :
  len ([1; 2; 3; 4] : list Z) <= batch_max_steps collater_4_2_1 /\
  adjust collater_4_2_1 (([1; 2; 3; 4] : list Z), ({| a_dim := 1; a_rows := [[1]; [2]] |} : ndarray2 Z)) g0 = Ok ((([1; 2; 3; 4] : list Z), ({| a_dim := 1; a_rows := [[1]; [2]] |} : ndarray2 Z)), g0) /\
  bindM (adjust collater_4_2_1 (([1; 2; 3; 4] : list Z), ({| a_dim := 1; a_rows := [[1]; [2]] |} : ndarray2 Z)))
        (fun b => adjust collater_4_2_1 b) g0
  = adjust collater_4_2_1 (([1; 2; 3; 4] : list Z), ({| a_dim := 1; a_rows := [[1]; [2]] |} : ndarray2 Z)) g0.
Proof.
  assert (H : len ([1; 2; 3; 4] : list Z) <= batch_max_steps collater_4_2_1)
    by (vm_compute; discriminate).
  split; [exact H|].
  destruct (adjust_short_pair Z Z collater_4_2_1 ([1; 2; 3; 4] : list Z) ({| a_dim := 1; a_rows := [[1]; [2]] |} : ndarray2 Z) g0 H)
    as (_ & Hr & Ht).
  split; [apply Hr; reflexivity|exact Ht].
Defined.

(** Witness for C10: without context window the twelve samples are
    cropped for sure. *)
Lemma crop_succeeds_without_context_witness :
  0 < len2 c6 - 2 - 0 /\
  exists x' c' g',
    adjust {| batch_max_steps := 4; batch_max_frames := 2; hop_size := 2;
              aux_context_window := 0 |} (x12, c6) g0
    = Ok ((x', c'), g').
Proof.
  destruct (crop_succeeds_without_context Z Z 5 2
              {| batch_max_steps := 4; batch_max_frames := 2; hop_size := 2;
                 aux_context_window := 0 |} x12 c6 g0
              ltac:(lia) ltac:(lia) eq_refl eq_refl eq_refl)
    as (Hne & _ & _ & Hok).
  split; [exact Hne|exact Hok].
Defined.

(** Three frames are too few for a crop of 2 frames with one frame of
    context on each side: the interval [[1, 0)] is empty. *)
Abbreviation x6 := ([1; 2; 3; 4; 5; 6] : list Z).
Abbreviation c3 := ({| a_dim := 1; a_rows := [[1]; [2]; [3]] |} : ndarray2 Z).
Abbreviation x4 := ([1; 2; 3; 4] : list Z).
Abbreviation c2 := ({| a_dim := 1; a_rows := [[1]; [2]] |} : ndarray2 Z).

Example adjust_raises_6 :
  adjust collater_4_2_1 (x6, c3) g0 = Raise ValueError.
Proof. reflexivity. Qed.

(** The batch of the cropped pair and a short pair. *)
Example __call___two_items :
  __call__ 0 id collater_4_2_1 [(x12, c6); (x4, c2)] g0
  = Ok ({| z_batch := {| t_shape := (2, 1, 4)%nat;
                         t_data := [[[0; 0; 0; 0]]; [[0; 0; 0; 0]]] |};
           c_batch := {| t_shape := (2, 1, 4)%nat;
                         t_data := [[[1; 2; 3; 4]]; [[1; 2; 0; 0]]] |};
           y_batch := {| t_shape := (2, 1, 4)%nat;
                         t_data := [[[3; 4; 5; 6]]; [[1; 2; 3; 4]]] |};
           input_lengths := [4; 4]%nat |}, g0).
Proof. reflexivity. Qed.

(** Witness for C8, on that batch. *)
Lemma collated_shapes_witness :
  exists b g',
    __call__ 0 id collater_4_2_1 [(x12, c6); (x4, c2)] g0 = Ok (b, g') /\
    t_shape (z_batch b) = t_shape (y_batch b) /\
    length (input_lengths b) = 2%nat.
Proof.
  destruct (__call__ 0 id collater_4_2_1 [(x12, c6); (x4, c2)] g0)
    as [[b g']|e] eqn:H; [|discriminate H].
  exists b, g'. split; [reflexivity|].
  destruct (collated_shapes _ _ _ _ _ _ _ _ _ H)
    as (nb & g1 & mo & mc & d & _ & _ & _ & _ & _ & Hz & _ & _ & _ & _ & _
        & Hl & _).
  split; [exact Hz|exact Hl].
Defined.

(** Witness for C9: 1000 and 1500 samples, hop size 1, target length
    2000. *)
Lemma trailing_zero_padding_witness :
  exists b g' row0 row1,
    __call__ 0 id
      {| batch_max_steps := 2000; batch_max_frames := 2000; hop_size := 1;
         aux_context_window := 2 |}
      [(replicate 1000 7, {| a_dim := 1; a_rows := replicate 1000 [7] |});
       (replicate 1500 9, {| a_dim := 1; a_rows := replicate 1500 [9] |})]
      g0 = Ok (b, g') /\
    t_shape (y_batch b) = (2, 1, 1500)%nat /\
    t_data (y_batch b) = [[row0]; [row1]] /\
    length row0 = 1500%nat /\ length row1 = 1500%nat /\
    (forall j, (j < 1000)%nat -> row0 !! j = id <$> replicate 1000 7 !! j) /\
    (forall j, (1000 <= j < 1500)%nat -> row0 !! j = Some (id 0)) /\
    row1 = map id (replicate 1500 9) /\
    input_lengths b = [1000; 1500]%nat.
Proof.
  apply (proj2 (trailing_zero_padding Z 0 Z id)
           {| batch_max_steps := 2000; batch_max_frames := 2000;
              hop_size := 1; aux_context_window := 2 |});
    try reflexivity.
  simpl. lia.
Defined.

(** *** A run with counting collaborators

    Parameters, gradients and optimizer and scheduler states are natural
    numbers: a backward pass adds one to the gradients it reaches, an
    optimizer step adds the gradient to the parameters, a scheduler step
    counts.  Every pass draws the same two batches. *)

Arguments Build_config {scalar} lambda_adv grad_norm discriminator_start_iter iters.
Arguments discriminator_start_iter {scalar} _.
Arguments iters {scalar} _.
Arguments initial_state {_ _ _ _ _ _ _ _} tg gg og sg td gd od sd.
Arguments calls {_ _ _ _ _ _ _ _} _.
Arguments theta_d {_ _ _ _ _ _ _ _} _.
Arguments optimizer_d {_ _ _ _ _ _ _ _} _.
Arguments schedular_d {_ _ _ _ _ _ _ _} _.
Arguments global_steps {_ _ _ _ _ _ _ _} _.
Arguments discriminator_untouched {_ _ _ _ _ _ _ _} st st'.

Abbreviation counting_train_step :=
  (train_step Z nat nat nat nat nat nat nat nat Z
     (fun _ _ _ _ p => (S (fst p), S (snd p)))
     (fun _ z _ => z)
     (fun _ _ _ gd => S gd)
     (fun _ => 0%nat) (fun _ => 0%nat)
     (fun _ gg => gg) (fun _ gd => gd)
     (fun th gg o => ((th + gg)%nat, S o))
     (fun th gd o => ((th + gd)%nat, S o))
     (fun sc o => (S sc, o)) (fun sc o => (S sc, o))
     (fun v => 0 <? v)).

Abbreviation counting_train_loop :=
  (train_loop Z 0 Z id nat nat nat nat nat nat nat nat Z
     (fun _ _ _ _ p => (S (fst p), S (snd p)))
     (fun _ z _ => z)
     (fun _ _ _ gd => S gd)
     (fun _ => 0%nat) (fun _ => 0%nat)
     (fun _ gg => gg) (fun _ gd => gd)
     (fun th gg o => ((th + gg)%nat, S o))
     (fun th gd o => ((th + gd)%nat, S o))
     (fun sc o => (S sc, o)) (fun sc o => (S sc, o))
     (fun v => 0 <? v)).

(** The loader: two batches in every pass. *)
Abbreviation two_batches :=
  (fun _ : Z => [[(x12, c6); (x4, c2)]; [(x4, c2)]]).

(** [discriminator_start_iter = 0], two passes, no clipping. *)
Abbreviation config_0_2 :=
  ({| lambda_adv := 4; grad_norm := 0; discriminator_start_iter := 0;
      iters := 2 |} : config Z).

Abbreviation state_0 :=
  (initial_state 0%nat 0%nat 0%nat 0%nat 0%nat 0%nat 0%nat 0%nat).

Abbreviation batch_1 :=
  ({| z_batch := {| t_shape := (1, 1, 1)%nat; t_data := [[[0]]] |};
      c_batch := {| t_shape := (1, 1, 1)%nat; t_data := [[[0]]] |};
      y_batch := {| t_shape := (1, 1, 1)%nat; t_data := [[[0]]] |};
      input_lengths := [1%nat] |} : batch_tensors Z).

(** The run of two passes: four iterations, the discriminator is updated
    in the last two only, and the counter ends at 2. *)
Example counting_run :
  option_map (fun r => (global_steps (fst (fst r)), theta_d (fst (fst r)),
                        calls (fst (fst r)), snd r))
    (counting_train_loop two_batches 5 collater_4_2_1 config_0_2 state_0 g0)
  = Some (2, 2%nat,
          [G_zero_grad; G_backward; G_step; G_schedular_step;
           G_zero_grad; G_backward; G_step; G_schedular_step;
           G_zero_grad; G_backward; G_step; G_schedular_step;
           D_zero_grad; D_backward; D_step; D_schedular_step;
           G_zero_grad; G_backward; G_step; G_schedular_step;
           D_zero_grad; D_backward; D_step; D_schedular_step],
          Finished).
Proof. reflexivity. Qed.

(** Counterexample to C4 as stated: with [discriminator_start_iter = 0]
    the first iteration of the first pass makes the generator calls only
    and leaves the discriminator's parameters at 0, and so does the whole
    first pass: after it (one pass, [iters = 1]) only generator calls
    were made. *)
Lemma first_pass_without_discriminator_update :
  discriminator_start_iter config_0_2 = 0 /\
  global_steps state_0 = 0 /\
  calls (counting_train_step config_0_2 state_0 batch_1)
  = [G_zero_grad; G_backward; G_step; G_schedular_step] /\
  theta_d (counting_train_step config_0_2 state_0 batch_1)
  = theta_d state_0 /\
  option_map (fun r => (calls (fst (fst r)), theta_d (fst (fst r)), snd r))
    (counting_train_loop two_batches 1 collater_4_2_1
       {| lambda_adv := 4; grad_norm := 0; discriminator_start_iter := 0;
          iters := 1 |} state_0 g0)
  = Some ([G_zero_grad; G_backward; G_step; G_schedular_step;
           G_zero_grad; G_backward; G_step; G_schedular_step],
          0%nat, Finished).
Proof. repeat split. Qed.

(** Witness for C3: the first iteration, made with [global_steps = 0] and
    [discriminator_start_iter = 0]. *)
Lemma discriminator_gate_witness :
  global_steps state_0 <= discriminator_start_iter config_0_2 /\
  theta_d (counting_train_step config_0_2 state_0 batch_1) = theta_d state_0 /\
  optimizer_d (counting_train_step config_0_2 state_0 batch_1)
  = optimizer_d state_0 /\
  schedular_d (counting_train_step config_0_2 state_0 batch_1)
  = schedular_d state_0.
Proof.
  assert (H : global_steps state_0 <= discriminator_start_iter config_0_2)
    by (simpl; lia).
  split; [exact H|].
  pose proof (discriminator_gate Z nat nat nat nat nat nat nat nat Z
                (fun _ _ _ _ p => (S (fst p), S (snd p)))
                (fun _ z _ => z)
                (fun _ _ _ gd => S gd)
                (fun _ => 0%nat) (fun _ => 0%nat)
                (fun _ gg => gg) (fun _ gd => gd)
                (fun th gg o => ((th + gg)%nat, S o))
                (fun th gd o => ((th + gd)%nat, S o))
                (fun sc o => (S sc, o)) (fun sc o => (S sc, o))
                (fun v => 0 <? v) config_0_2 state_0 batch_1) as (_ & Hf & _).
  destruct (Hf H) as (Ht & Ho & Hs & _). auto.
Defined.

(** Witness for C4 (amended): the first iteration of the first pass
    leaves the discriminator untouched although
    [discriminator_start_iter = 0]. *)
Lemma discriminator_start_scenarios_witness :
  discriminator_start_iter config_0_2 = 0 /\
  discriminator_untouched state_0
    (counting_train_step config_0_2 state_0 batch_1).
Proof.
  split; [reflexivity|].
  pose proof (discriminator_start_scenarios Z 0 Z id
                nat nat nat nat nat nat nat nat Z
                (fun _ _ _ _ p => (S (fst p), S (snd p)))
                (fun _ z _ => z)
                (fun _ _ _ gd => S gd)
                (fun _ => 0%nat) (fun _ => 0%nat)
                (fun _ gg => gg) (fun _ gd => gd)
                (fun th gg o => ((th + gg)%nat, S o))
                (fun th gd o => ((th + gd)%nat, S o))
                (fun sc o => (S sc, o)) (fun sc o => (S sc, o))
                (fun v => 0 <? v) two_batches collater_4_2_1 config_0_2)
    as [H1 _].
  destruct (H1 eq_refl) as (Hu & _). apply Hu. reflexivity.
Defined.

(** Witness for C7: the pair of six samples and three frames. *)
Lemma empty_interval_is_fatal_witness :
  len x6 > batch_max_steps collater_4_2_1 /\
  len2 c3 - batch_max_frames collater_4_2_1
    - aux_context_window collater_4_2_1
    <= aux_context_window collater_4_2_1 /\
  adjust collater_4_2_1 (x6, c3) g0 = Raise ValueError /\
  __call__ 0 id collater_4_2_1 [(x4, c2); (x6, c3)] g0 = Raise ValueError.
Proof.
  assert (H1 : len x6 > batch_max_steps collater_4_2_1) by reflexivity.
  assert (H2 : len2 c3 - batch_max_frames collater_4_2_1
               - aux_context_window collater_4_2_1
               <= aux_context_window collater_4_2_1) by (vm_compute; discriminate).
  split; [exact H1|]. split; [exact H2|].
  pose proof (empty_interval_is_fatal Z 0 Z id
                nat nat nat nat nat nat nat nat Z
                (fun _ _ _ _ p => (S (fst p), S (snd p)))
                (fun _ z _ => z)
                (fun _ _ _ gd => S gd)
                (fun _ => 0%nat) (fun _ => 0%nat)
                (fun _ gg => gg) (fun _ gd => gd)
                (fun th gg o => ((th + gg)%nat, S o))
                (fun th gd o => ((th + gd)%nat, S o))
                (fun sc o => (S sc, o)) (fun sc o => (S sc, o))
                (fun v => 0 <? v) two_batches collater_4_2_1 x6 c3 g0 H1 H2)
    as (Ha & Hc & _).
  split; [exact Ha|].
  apply (Hc [(x4, c2)] [] g0 [(x4, c2)]). reflexivity.
Defined.

(** *** The further properties at explicit inputs *)

Arguments _pad_2darray {sample} x max_len b_pad constant_values.

(** Witness for X1: a zero hop size. *)
Lemma __init___raises_witness : __init__ 5 0 1 = Raise ZeroDivisionError.
Proof. apply (proj1 (__init___raises 5 0 1)). reflexivity. Defined.

(** Witness for X2: with the hop size [-2] the length 5 is stored as 6,
    that is [-3] frames. *)
Lemma __init___stored_lengths_witness :
  __init__ 5 (-2) 1
  = Ok {| batch_max_steps := 6; batch_max_frames := -3; hop_size := -2;
          aux_context_window := 1 |} /\
  5 <= 6 < 5 - -2.
Proof.
  assert (H : __init__ 5 (-2) 1
              = Ok {| batch_max_steps := 6; batch_max_frames := -3;
                      hop_size := -2; aux_context_window := 1 |})
    by reflexivity.
  split; [exact H|].
  destruct (__init___stored_lengths 5 (-2) 1 _ H) as (_ & _ & _ & _ & Hn & _).
  apply Hn. lia.
Defined.

(** Witness for X3. *)
Lemma __init___idempotent_witness :
  __init__ 5 2 1 = Ok collater_4_2_1 /\ __init__ 4 2 1 = Ok collater_4_2_1.
Proof.
  assert (H : __init__ 5 2 1 = Ok collater_4_2_1) by reflexivity.
  split; [exact H|]. exact (__init___idempotent 5 2 1 collater_4_2_1 H).
Defined.

(** Witness for X4: six samples and three frames, no offset to draw. *)
Lemma adjust_raises_witness :
  adjust collater_4_2_1 (x6, c3) g0 = Raise ValueError.
Proof.
  apply (proj2 (adjust_raises Z Z 5 2 1 collater_4_2_1 x6 c3 g0 ValueError
                  ltac:(lia) ltac:(lia) ltac:(lia) eq_refl)).
  right. split; [reflexivity|]. split; [reflexivity|].
  split; [reflexivity|]. vm_compute. discriminate.
Defined.

(** Witness for X5: the crop of the twelve samples. *)
Lemma crop_is_a_window_witness :
  exists s,
    1 <= s < len2 c6 - 2 - 1 /\
    (forall i k, 0 <= i < 2 -> 0 <= k < 2 ->
                 ([3; 4; 5; 6] : list Z) !! Z.to_nat (i * 2 + k)
                 = x12 !! Z.to_nat ((s + i) * 2 + k)).
Proof.
  destruct (crop_is_a_window Z Z 5 2 1 collater_4_2_1 x12 c6 g0
              [3; 4; 5; 6] {| a_dim := 1; a_rows := [[1]; [2]; [3]; [4]] |} g0
              ltac:(lia) ltac:(lia) ltac:(lia) eq_refl eq_refl eq_refl)
    as (s & Hs & _ & _ & Hx).
  exists s. split; [exact Hs|]. intros i k Hi Hk. by apply Hx.
Defined.

(** Witness for X6: the crop is not adjusted again. *)
Lemma readjust_crop_witness :
  adjust collater_4_2_1
    ([3; 4; 5; 6], {| a_dim := 1; a_rows := [[1]; [2]; [3]; [4]] |}) g0
  = Raise AssertionError.
Proof.
  exact (readjust_crop Z Z 5 2 1 collater_4_2_1 x12 c6 g0
           [3; 4; 5; 6] {| a_dim := 1; a_rows := [[1]; [2]; [3]; [4]] |} g0 g0
           ltac:(lia) ltac:(lia) ltac:(lia) eq_refl eq_refl eq_refl).
Defined.

(** Witness for X7: two frames padded to five, one row before. *)
Lemma _pad_2darray_outcome_witness :
  _pad_2darray c2 5 1 0
  = Ok {| a_dim := 1; a_rows := [[0]; [1]; [2]; [0]; [0]] |} /\
  len2 {| a_dim := 1; a_rows := [[0]; [1]; [2]; [0]; [0]] |} = 5 /\
  slice2 {| a_dim := 1; a_rows := [[0]; [1]; [2]; [0]; [0]] |} 1 (1 + len2 c2)
  = c2.
Proof.
  assert (H : _pad_2darray c2 5 1 0
              = Ok {| a_dim := 1; a_rows := [[0]; [1]; [2]; [0]; [0]] |})
    by reflexivity.
  split; [exact H|].
  destruct (proj2 (_pad_2darray_outcome Z c2 5 1 0) _ H)
    as (_ & _ & _ & Hl & Hs & _).
  split; [exact Hl|exact Hs].
Defined.

(** Witness for X8: the batch of two items is collated. *)
Lemma __call___outcome_witness :
  [(x12, c6); (x4, c2)] <> [] /\
  (exists new_batch g1,
      adjust_batch collater_4_2_1 [(x12, c6); (x4, c2)] g0
      = Ok (new_batch, g1)) /\
  (exists d, Forall (fun p : list Z * ndarray2 Z => a_dim (snd p) = d)
                    [(x12, c6); (x4, c2)]).
Proof.
  apply (proj1 (proj1 (__call___outcome Z 0 Z id collater_4_2_1
                         [(x12, c6); (x4, c2)] g0))).
  do 2 eexists. vm_compute. reflexivity.
Defined.

(** Witness for X9: one pair of that batch is cropped, so the batch has
    exactly 4 samples and 2 + 2 frames. *)
Lemma collated_lengths_bounded_witness :
  exists bt g' t tc d,
    __call__ 0 id collater_4_2_1 [(x12, c6); (x4, c2)] g0 = Ok (bt, g') /\
    t_shape (y_batch bt) = (2, 1, t)%nat /\
    t_shape (c_batch bt) = (2, d, tc)%nat /\
    Z.of_nat t = 4 /\ Z.of_nat tc = 2 + 2 * 1.
Proof.
  destruct (__call__ 0 id collater_4_2_1 [(x12, c6); (x4, c2)] g0)
    as [[bt g']|e] eqn:H; [|discriminate H].
  destruct (collated_lengths_bounded Z 0 Z id 5 2 1 collater_4_2_1 _ _ _ _
              ltac:(lia) ltac:(lia) ltac:(lia) eq_refl H)
    as (t & tc & d & Hy & Hc & _ & _ & He & _).
  exists bt, g', t, tc, d. split; [reflexivity|].
  split; [exact Hy|]. split; [exact Hc|].
  apply He. apply Exists_cons_hd. reflexivity.
Defined.

(** Witness for X10: the same batch; the features have one dimension
    and at most four frames. *)
Lemma c_batch_layout_witness :
  exists bt g' new_batch g1 d tc,
    __call__ 0 id collater_4_2_1 [(x12, c6); (x4, c2)] g0 = Ok (bt, g') /\
    adjust_batch collater_4_2_1 [(x12, c6); (x4, c2)] g0
    = Ok (new_batch, g1) /\
    t_shape (c_batch bt) = (2, d, tc)%nat /\
    Forall (fun p : list Z * ndarray2 Z => a_dim (snd p) = d)
           [(x12, c6); (x4, c2)] /\
    max_ (map (fun p : list Z * ndarray2 Z => length (a_rows (snd p)))
              new_batch) = Ok tc.
Proof.
  destruct (__call__ 0 id collater_4_2_1 [(x12, c6); (x4, c2)] g0)
    as [[bt g']|e] eqn:H; [|discriminate H].
  destruct (c_batch_layout Z 0 Z id collater_4_2_1
              [(x12, c6); (x4, c2)] g0 bt g' ltac:(repeat constructor) H)
    as (nb & g1 & d & tc & Ha & Hs & _ & Hd & _ & Hm & _).
  exists bt, g', nb, g1, d, tc. auto.
Defined.

(** The properties of the loop, at the collaborators that count. *)
Abbreviation at_counting_run property :=
  (property Z 0 Z (@id Z) nat nat nat nat nat nat nat nat Z
     (fun (_ : Z) (_ _ : nat) (_ : batch_tensors Z) (p : nat * nat) =>
        (S (fst p), S (snd p)))
     (fun (_ : nat) (z _ : tensor3 Z) => z)
     (fun (_ : nat) (_ _ : tensor3 Z) (gd : nat) => S gd)
     (fun _ : nat => 0%nat) (fun _ : nat => 0%nat)
     (fun (_ : Z) (gg : nat) => gg) (fun (_ : Z) (gd : nat) => gd)
     (fun th gg o : nat => ((th + gg)%nat, S o))
     (fun th gd o : nat => ((th + gd)%nat, S o))
     (fun sc o : nat => (S sc, o)) (fun sc o : nat => (S sc, o))
     (fun v : Z => 0 <? v)
     two_batches).

Lemma counting_run_finishes :
  exists st' g',
    counting_train_loop two_batches 5 collater_4_2_1 config_0_2 state_0 g0
    = Some (st', g', Finished).
Proof. do 2 eexists. vm_compute. reflexivity. Defined.

(** Witness for X11: four generator updates, two discriminator updates. *)
Lemma run_makes_whole_updates_witness :
  exists st' g' new_calls n_g n_d,
    counting_train_loop two_batches 5 collater_4_2_1 config_0_2 state_0 g0
    = Some (st', g', Finished) /\
    calls st' = calls state_0 ++ new_calls /\
    (n_d <= n_g)%nat /\
    count_calls G_step new_calls = n_g /\
    count_calls G_schedular_step new_calls = n_g /\
    count_calls D_step new_calls = n_d /\
    count_calls D_schedular_step new_calls = n_d.
Proof.
  destruct counting_run_finishes as (st' & g' & H).
  destruct (at_counting_run run_makes_whole_updates _ _ _ _ _ _ _ _ H)
    as (new & n_g & n_d & Hc & Hle & _ & _ & Hs & Hss & _ & _ & Hd & Hds).
  exists st', g', new, n_g, n_d. auto 10.
Defined.

(** Witness for X12: [grad_norm = 0], so nothing is clipped. *)
Lemma clipping_follows_grad_norm_witness :
  exists st' g' new_calls,
    counting_train_loop two_batches 5 collater_4_2_1 config_0_2 state_0 g0
    = Some (st', g', Finished) /\
    calls st' = calls state_0 ++ new_calls /\
    count_calls G_clip_grad_norm new_calls = 0%nat /\
    count_calls D_clip_grad_norm new_calls = 0%nat.
Proof.
  destruct counting_run_finishes as (st' & g' & H).
  destruct (at_counting_run clipping_follows_grad_norm _ _ _ _ _ _ _ _ H)
    as (new & Hc & Hg & Hd).
  exists st', g', new. auto.
Defined.

(** Witness for X13: two passes of two batches; the discriminator is
    stepped in the second pass only. *)
Lemma finished_run_step_counts_witness :
  exists st' g' new_calls (n : nat),
    counting_train_loop two_batches 5 collater_4_2_1 config_0_2 state_0 g0
    = Some (st', g', Finished) /\
    calls st' = calls state_0 ++ new_calls /\
    global_steps st' = Z.of_nat n /\ Z.of_nat n = 2 /\
    count_calls G_step new_calls
    = sum_list_with (fun _ : nat => 2%nat) (seq 0 n) /\
    count_calls D_step new_calls
    = sum_list_with (fun i : nat => if Z.of_nat i >? 0 then 2%nat else 0%nat)
        (seq 0 n).
Proof.
  destruct counting_run_finishes as (st' & g' & H).
  destruct (at_counting_run finished_run_step_counts collater_4_2_1
              config_0_2 5%nat state_0 g0 st' g' eq_refl H)
    as (new & n & Hc & Hg & Hn & Hs & _ & Hd & _).
  exists st', g', new, n. auto 10.
Defined.

(** Witness for X14: a budget of zero. *)
Lemma exhausted_budget_makes_one_pass_witness :
  exists st' g' ex,
    counting_train_loop two_batches 3 collater_4_2_1
      {| lambda_adv := 4; grad_norm := 0; discriminator_start_iter := 0;
         iters := 0 |} state_0 g0
    = Some (st', g', ex).
Proof.
  destruct (at_counting_run exhausted_budget_makes_one_pass collater_4_2_1
              {| lambda_adv := 4; grad_norm := 0;
                 discriminator_start_iter := 0; iters := 0 |}
              2%nat state_0 g0 ltac:(simpl; lia))
    as (st' & g' & ex & H & _).
  eauto.
Defined.
